(** * gopubsub: the broker's log format, append path and subscription path

    A shallow embedding of [server/server.go] (package [server]) and of the
    wire messages of [gopubsub.proto], with the properties of the storage
    and streaming engine stated over it.

    Layout of the development:
    - [Go]: the pieces of Go's standard library the server calls
      ([encoding/binary], [hash/crc32], [path], [path/filepath], [fmt]);
    - [Proto]: the proto3 wire encoding of [Message];
    - the data model ([Message], [MessageSet], [Topic], the registry);
    - [Sys] and [Repo]: the operating system, the protobuf library, the
      RPC stream, and the parts of the package that live outside
      [server.go] (the topic's writer and listeners, the tailing reader);
    - [init], [PublishMulti], [Subscribe] as state-passing programs that
      record the calls they make;
    - [Frame]: the Frame Codec as the specification describes it;
    - [Mem]: an in-memory environment on which the programs run, and
      [Scenario]: disks and topics to run them on;
    - the theorems: first for every environment, then for runs in [Mem]. *)

From Stdlib Require Import ZArith Lia List Ascii String DecimalString Sorted.
From stdpp Require Import base gmap strings list.

Open Scope Z_scope.

(** Bytes are integers in [0, 256). *)
Definition bytes := list Z.

(** Go's [error] values carry a message. *)
Definition error := string.

(* ===================================================================== *)
(** ** Go's standard library, as far as the server uses it *)
(* ===================================================================== *)

Module Go.

(** Conversions [byte(x)], [uint32(x)], [uint64(x)]: truncation. *)
Definition byte (x : Z) : Z := x mod 2 ^ 8.
Definition uint32 (x : Z) : Z := x mod 2 ^ 32.
Definition uint64 (x : Z) : Z := x mod 2 ^ 64.

(** [binary.LittleEndian.PutUint32(b, v)]: the four bytes stored in [b]. *)
Definition PutUint32 (v : Z) : bytes :=
  [byte v; byte (Z.shiftr v 8); byte (Z.shiftr v 16); byte (Z.shiftr v 24)].

(** [binary.LittleEndian.Uint32(b)]. *)
Definition Uint32 (b : bytes) : Z :=
  match b with
  | [b0; b1; b2; b3] =>
      Z.lor b0 (Z.lor (Z.shiftl b1 8) (Z.lor (Z.shiftl b2 16) (Z.shiftl b3 24)))
  | _ => 0
  end.

(** *** hash/crc32 *)

(** [crc32.IEEE], the reversed polynomial. *)
Definition IEEE : Z := 0xedb88320.

(** One entry of [simpleMakeTable(poly)]: eight shift-and-xor rounds. *)
Definition tableEntry (poly i : Z) : Z :=
  Nat.iter 8
    (fun crc => if Z.testbit crc 0
                then Z.lxor (Z.shiftr crc 1) poly
                else Z.shiftr crc 1)
    i.

(** [simpleUpdate(crc, tab, p)]:
    [crc = ^crc; for v in p { crc = tab[byte(crc)^v] ^ (crc >> 8) }; ^crc]. *)
Definition update (poly crc : Z) (p : bytes) : Z :=
  let step crc v :=
    Z.lxor (tableEntry poly (Z.lxor (byte crc) v)) (Z.shiftr crc 8) in
  Z.lxor (fold_left step p (Z.lxor crc 0xffffffff)) 0xffffffff.

(** [crc32.ChecksumIEEE(p)]. *)
Definition ChecksumIEEE (p : bytes) : Z := update IEEE 0 p.

(** The [digest] behind [crc32.NewIEEE()]: the running checksum. *)
Record digest := { crc : Z }.

Definition NewIEEE : digest := {| crc := 0 |}.
(** [d.Reset()] *)
Definition Reset (d : digest) : digest := {| crc := 0 |}.
(** [d.Write(p)] feeds [p] into the running checksum. *)
Definition Write (d : digest) (p : bytes) : digest :=
  {| crc := update IEEE (crc d) p |}.
(** [d.Sum32()] *)
Definition Sum32 (d : digest) : Z := crc d.
(** [d.Sum(in)] appends the current checksum, big-endian, to [in] and
    returns the extended slice; the digest is left as it was. *)
Definition Sum (d : digest) (b : bytes) : bytes :=
  let s := Sum32 d in
  b ++ [byte (Z.shiftr s 24); byte (Z.shiftr s 16); byte (Z.shiftr s 8); byte s].

(** *** fmt *)

(** [fmt.Sprintf("%d", n)] for [n >= 0]. *)
Definition decimal (n : Z) : string :=
  NilZero.string_of_uint (N.to_uint (Z.to_N n)).

Fixpoint zeros (n : nat) : string :=
  match n with
  | O => EmptyString
  | S n' => String "0" (zeros n')
  end.

(** [fmt.Sprintf("%012d", n)] for [n >= 0]: zero-padded to width 12. *)
Definition pad12 (n : Z) : string :=
  let d := decimal n in
  zeros (12 - String.length d) +:+ d.

(** *** path and path/filepath *)

Definition slash : ascii := "/"%char.
Definition dot : ascii := "."%char.

(** The text up to the first slash, and what follows that slash. *)
Fixpoint cut (s : string) : string * option string :=
  match s with
  | EmptyString => (EmptyString, None)
  | String c s' =>
      if Ascii.eqb c slash then (EmptyString, Some s')
      else let '(h, t) := cut s' in (String c h, t)
  end.

(** [strings.Split(s, "/")]; the fuel is the length of [s]. *)
Fixpoint splitFuel (fuel : nat) (s : string) : list string :=
  match fuel with
  | O => [s]
  | S fuel' =>
      match cut s with
      | (h, None) => [h]
      | (h, Some t) => h :: splitFuel fuel' t
      end
  end.
Definition split (s : string) : list string := splitFuel (String.length s) s.

(** [strings.Join(elems, "/")]. *)
Fixpoint joinSlash (elems : list string) : string :=
  match elems with
  | [] => EmptyString
  | [e] => e
  | e :: rest => e +:+ String slash (joinSlash rest)
  end.

(** [path.Clean]: the elements that survive, innermost last. [stack] holds
    them in reverse. *)
Fixpoint cleanElems (rooted : bool) (elems stack : list string) : list string :=
  match elems with
  | [] => rev stack
  | e :: rest =>
      if String.eqb e "" || String.eqb e "." then cleanElems rooted rest stack
      else if String.eqb e ".." then
        match stack with
        | top :: stack' =>
            if String.eqb top ".." then cleanElems rooted rest (e :: stack)
            else cleanElems rooted rest stack'
        | [] =>
            if rooted then cleanElems rooted rest stack
            else cleanElems rooted rest (e :: stack)
        end
      else cleanElems rooted rest (e :: stack)
  end.

Definition Clean (p : string) : string :=
  match p with
  | EmptyString => "."
  | String c _ =>
      let rooted := Ascii.eqb c slash in
      let body := joinSlash (cleanElems rooted (split p) []) in
      if rooted then String slash body
      else if String.eqb body "" then "." else body
  end.

(** [path.Join(elem...)]: empty elements are ignored, the result is
    cleaned; the empty string when every element is empty. *)
Definition Join (elem : list string) : string :=
  match filter (fun e => e ≠ EmptyString) elem with
  | [] => EmptyString
  | es => Clean (joinSlash es)
  end.

(** The text up to and including the last slash ([path.Split]'s first
    component). *)
Fixpoint dirPart (s : string) : string :=
  match s with
  | EmptyString => EmptyString
  | String c s' =>
      let d := dirPart s' in
      if String.eqb d "" then (if Ascii.eqb c slash then String c EmptyString else EmptyString)
      else String c d
  end.

(** [path.Dir(p)]. *)
Definition Dir (p : string) : string := Clean (dirPart p).

(** [filepath.Ext(p)]: the suffix from the last dot of the last element. *)
Fixpoint Ext (s : string) : string :=
  match s with
  | EmptyString => EmptyString
  | String c s' =>
      let e := Ext s' in
      if String.eqb e "" then
        (if Ascii.eqb c dot
         then (if existsb (Ascii.eqb slash) (list_ascii_of_string s') then EmptyString else s)
         else EmptyString)
      else e
  end.

End Go.

(* ===================================================================== *)
(** ** The proto3 wire encoding of [Message] *)
(* ===================================================================== *)

(** [message Message { uint64 offset = 1; bytes key = 10; bytes value = 11; }] *)
Record Message := { offset : Z; key : bytes; value : bytes }.

(** [message SubscribeResponse { repeated Message messages = 1; }] *)
Record SubscribeResponse := { Messages : list Message }.

(** [message PublishMultiRequest { string topic = 1; repeated Message messages = 2; }] *)
Record PublishMultiRequest := { pub_Topic : string; pub_Messages : list Message }.

(** [message PublishMultiReply {}] *)
Record PublishMultiReply := {}.

(** [message SubscribeRequest { string topic = 1; uint64 offset = 2; }] *)
Record SubscribeRequest := { sub_Topic : string; sub_Offset : Z }.

Module Proto.

(** Base-128 varint, least significant group first; ten groups hold 64 bits. *)
Fixpoint varintFuel (fuel : nat) (x : Z) : bytes :=
  match fuel with
  | O => []
  | S fuel' =>
      if x <? 128 then [x]
      else Z.lor (Z.land x 127) 128 :: varintFuel fuel' (Z.shiftr x 7)
  end.
Definition EncodeVarint (x : Z) : bytes := varintFuel 10 x.

Definition tag (field wire : Z) : bytes := EncodeVarint (Z.lor (Z.shiftl field 3) wire).

Definition bytesField (field : Z) (b : bytes) : bytes :=
  match b with
  | [] => []
  | _ => tag field 2 ++ EncodeVarint (Z.of_nat (length b)) ++ b
  end.

(** proto3 marshalling: fields in tag order, zero values omitted. *)
Definition Marshal (m : Message) : bytes :=
  (if offset m =? 0 then [] else tag 1 0 ++ EncodeVarint (offset m))
  ++ bytesField 10 (key m) ++ bytesField 11 (value m).

Fixpoint decodeVarint (fuel : nat) (shift : Z) (b : bytes) : option (Z * bytes) :=
  match fuel, b with
  | S fuel', c :: rest =>
      let x := Z.shiftl (Z.land c 127) shift in
      if c <? 128 then Some (x, rest)
      else match decodeVarint fuel' (shift + 7) rest with
           | Some (y, rest') => Some (Z.lor x y, rest')
           | None => None
           end
  | _, _ => None
  end.
Definition DecodeVarint (b : bytes) : option (Z * bytes) := decodeVarint 10 0 b.

Definition takeBytes (n : Z) (b : bytes) : option (bytes * bytes) :=
  if Z.of_nat (length b) <? n then None
  else Some (firstn (Z.to_nat n) b, skipn (Z.to_nat n) b).

Definition ErrUnexpectedEOF : error := "unexpected EOF".
Definition ErrWireType : error := "proto: bad wiretype".

(** Unmarshalling into [m]: the fields read before a failure stay set.
    Fields other than the three of [Message] are skipped by their wire
    type (varint, 64-bit, length-delimited, 32-bit); groups are not
    modelled and end the parse with an error. *)
Fixpoint unmarshalFuel (fuel : nat) (b : bytes) (m : Message) : Message * option error :=
  match fuel, b with
  | _, [] => (m, None)
  | O, _ => (m, Some ErrUnexpectedEOF)
  | S fuel', _ =>
      match DecodeVarint b with
      | None => (m, Some ErrUnexpectedEOF)
      | Some (t, rest) =>
          let field := Z.shiftr t 3 in
          let wire := Z.land t 7 in
          if wire =? 0 then
            match DecodeVarint rest with
            | None => (m, Some ErrUnexpectedEOF)
            | Some (x, rest') =>
                unmarshalFuel fuel' rest'
                  (if field =? 1
                   then {| offset := Go.uint64 x; key := key m; value := value m |}
                   else m)
            end
          else if wire =? 2 then
            match DecodeVarint rest with
            | None => (m, Some ErrUnexpectedEOF)
            | Some (n, rest') =>
                match takeBytes n rest' with
                | None => (m, Some ErrUnexpectedEOF)
                | Some (payload, rest'') =>
                    unmarshalFuel fuel' rest''
                      (if field =? 10
                       then {| offset := offset m; key := payload; value := value m |}
                       else if field =? 11
                       then {| offset := offset m; key := key m; value := payload |}
                       else m)
                end
            end
          else if wire =? 1 then
            match takeBytes 8 rest with
            | None => (m, Some ErrUnexpectedEOF)
            | Some (_, rest') => unmarshalFuel fuel' rest' m
            end
          else if wire =? 5 then
            match takeBytes 4 rest with
            | None => (m, Some ErrUnexpectedEOF)
            | Some (_, rest') => unmarshalFuel fuel' rest' m
            end
          else (m, Some ErrWireType)
      end
  end.

(** [proto.Unmarshal(b, new(Message))]. *)
Definition Unmarshal (b : bytes) : Message * option error :=
  unmarshalFuel (length b) b {| offset := 0; key := []; value := [] |}.

End Proto.

(* ===================================================================== *)
(** ** Data model *)
(* ===================================================================== *)

(** [MessageSet]: one segment file of a topic. *)
Record MessageSet := { path : string; offsetBegin : Z }.

(** Modelled from the spec: [MessageSetSort] and its [Less] are declared
    outside [server.go]; segments are sorted ascending by [offsetBegin]. *)
Fixpoint insertMessageSet (x : MessageSet) (l : list MessageSet) : list MessageSet :=
  match l with
  | [] => [x]
  | y :: l' =>
      if offsetBegin x <? offsetBegin y then x :: l
      else y :: insertMessageSet x l'
  end.
Definition MessageSetSort (l : list MessageSet) : list MessageSet :=
  fold_right insertMessageSet [] l.

(** The permission bits [0770]. *)
Definition perm0770 : Z := 504.

(** [os.OpenFile] flags. *)
Inductive OpenFlag := O_RDONLY | O_WRONLY | O_RDWR | O_APPEND | O_CREATE.

#[export] Instance OpenFlag_eq_dec : EqDecision OpenFlag.
Proof. solve_decision. Defined.

(** [os.FileInfo], as far as [init] looks at it. *)
Record FileInfo := { fi_Name : string; fi_IsDir : bool }.

(** The operating system, the protobuf library and the subscriber's RPC
    stream.  Calls that can fail return Go's [err] next to their result. *)
Class Sys := {
  World : Type;
  File : Type;
  Writer : Type;
  os_Stat : World -> string -> error + FileInfo;
  ioutil_ReadDir : World -> string -> error + list FileInfo;
  os_MkdirAll : World -> string -> Z -> World * option error;
  os_OpenFile : World -> string -> list OpenFlag -> Z -> World * (error + File);
  os_Open : World -> string -> World * (error + File);
  bufio_NewWriter : File -> Writer;
  proto_Marshal : Message -> error + bytes;
  proto_Unmarshal : bytes -> Message * option error;
  srv_Send : World -> SubscribeResponse -> World * option error
}.

(** [Topic]: name, Segment Set and the buffered writer on the last segment. *)
Record Topic `{Sys} := {
  name : string;
  messageSets : list MessageSet;
  writer : Writer
}.

(** The rest of package [server], which [server.go] calls: the topic's
    writer and listeners, segment construction and the tailing reader. *)
Class Repo `{Sys} := {
  Listener : Type;
  Reader : Type;
  NewMessageSet : World -> string -> error + MessageSet;
  Topic_Write : World -> Topic -> bytes -> World * option error;
  Topic_Flush : World -> Topic -> World * option error;
  Topic_Listen : World -> Topic -> World * Listener;
  NewMessageSetReader : File -> Listener -> Reader;
  ReadMessage : World -> Reader -> World * Reader * (error + bytes)
}.

(** The calls a run makes, in order. *)
Inductive Event :=
| EvMkdirAll (p : string)
| EvOpenFile (p : string) (flags : list OpenFlag)
| EvOpen (p : string)
| EvWrite (topic : string) (p : bytes)
| EvFlush (topic : string)
| EvListen (topic : string)
| EvRead
| EvSend (r : SubscribeResponse).

(** How a call of the server ends: a value, a returned [error], a run-time
    panic, or still running when the model's fuel ran out. *)
Inductive result (A : Type) :=
| Ok (a : A)
| Err (e : error)
| Panic (msg : string)
| Cutoff.
Arguments Ok {A} a.
Arguments Err {A} e.
Arguments Panic {A} msg.
Arguments Cutoff {A}.

(* ===================================================================== *)
(** ** The server as a state-passing program *)
(* ===================================================================== *)

Section Server.
Context `{R : Repo}.

(** [Server]: the data directory and the topic registry ([ctx] is the
    background context).  The registry and the world change as a call
    runs; [trace] records the calls made so far. *)
Record State := {
  world : World;
  topics : gmap string Topic;
  trace : list Event
}.

Definition M (A : Type) : Type := State -> State * result A.

Definition ret {A} (a : A) : M A := fun s => (s, Ok a).
Definition raise {A} (e : error) : M A := fun s => (s, Err e).
Definition panic {A} (msg : string) : M A := fun s => (s, Panic msg).
Definition cutoff {A} : M A := fun s => (s, Cutoff).
Definition bind {A B} (c : M A) (k : A -> M B) : M B :=
  fun s =>
    match c s with
    | (s', Ok a) => k a s'
    | (s', Err e) => (s', Err e)
    | (s', Panic msg) => (s', Panic msg)
    | (s', Cutoff) => (s', Cutoff)
    end.

Notation "x <- c ;; k" := (bind c (fun x => k))
  (at level 100, c at next level, right associativity).

(** A call into the world: run it, record it. *)
Definition call {A} (ev : Event) (f : World -> World * A) : M A :=
  fun s =>
    let '(w, a) := f (world s) in
    ({| world := w; topics := topics s; trace := trace s ++ [ev] |}, Ok a).

(** A look at the world that leaves it as it is. *)
Definition peek {A} (f : World -> A) : M A := fun s => (s, Ok (f (world s))).

Definition lookupTopic (n : string) : M (option Topic) :=
  fun s => (s, Ok (topics s !! n)).
Definition storeTopic (t : Topic) : M unit :=
  fun s => ({| world := world s; topics := <[name t := t]> (topics s);
               trace := trace s |}, Ok tt).

(** [if err != nil { return err }] *)
Definition check (err : option error) : M unit :=
  match err with
  | Some e => raise e
  | None => ret tt
  end.

(** [l[i]] with Go's bounds check. *)
Definition index {A} (l : list A) (i : Z) : M A :=
  if i <? 0 then panic "index out of range"
  else match l !! Z.to_nat i with
       | Some a => ret a
       | None => panic "index out of range"
       end.

Definition len {A} (l : list A) : Z := Z.of_nat (length l).

(** *** [init] *)

(** The inner loop of [init]: one [MessageSet] per [.pubsub] file. *)
Fixpoint loadMessageSets (dir topicName : string) (files : list FileInfo)
    (acc : list MessageSet) : M (list MessageSet) :=
  match files with
  | [] => ret acc
  | messageSetFile :: rest =>
      if bool_decide (Go.Ext (fi_Name messageSetFile) ≠ ".pubsub"%string)
      then loadMessageSets dir topicName rest acc
      else
        r <- peek (fun w =>
               NewMessageSet w (Go.Join [dir; topicName; fi_Name messageSetFile])) ;;
        match r with
        | inl err => raise err
        | inr messageSet => loadMessageSets dir topicName rest (acc ++ [messageSet])
        end
  end.

(** The outer loop of [init]: one topic per subdirectory. *)
Fixpoint loadTopics (dir : string) (files : list FileInfo) : M unit :=
  match files with
  | [] => ret tt
  | fileInfo :: rest =>
      if fi_IsDir fileInfo then
        r <- peek (fun w => ioutil_ReadDir w (Go.Join [dir; fi_Name fileInfo])) ;;
        match r with
        | inl err => raise err
        | inr messageSets =>
            sets <- loadMessageSets dir (fi_Name fileInfo) messageSets [] ;;
            if len sets <? 0 then loadTopics dir rest
            else
              let sorted := MessageSetSort sets in
              currentMessageSet <- index sorted (len sorted - 1) ;;
              let flags := [O_WRONLY; O_APPEND] in
              r <- call (EvOpenFile (path currentMessageSet) flags)
                     (fun w => os_OpenFile w (path currentMessageSet) flags perm0770) ;;
              match r with
              | inl err => raise err
              | inr topicFile =>
                  _ <- storeTopic {| name := fi_Name fileInfo;
                                     messageSets := sorted;
                                     writer := bufio_NewWriter topicFile |} ;;
                  loadTopics dir rest
              end
        end
      else loadTopics dir rest
  end.

Definition init (dir : string) : M unit :=
  r <- peek (fun w => os_Stat w dir) ;;
  _ <- match r with
       | inl err => raise err
       | inr _ => ret tt
       end ;;
  r <- peek (fun w => ioutil_ReadDir w dir) ;;
  match r with
  | inl err => raise err
  | inr files => loadTopics dir files
  end.

(** [NewServer(dir)]: an empty registry, then [init]. *)
Definition NewServer (w : World) (dir : string) : State * result unit :=
  init dir {| world := w; topics := ∅; trace := [] |}.

(** *** [PublishMulti] *)

Definition write (topic : Topic) (p : bytes) : M (option error) :=
  call (EvWrite (name topic) p) (fun w => Topic_Write w topic p).

(** [io.Copy(topic, bytes.NewReader(encoded))]: [Reader.WriteTo] hands the
    unread bytes to [topic.Write] in one call, and makes no call when
    there are none. *)
Definition io_Copy (topic : Topic) (encoded : bytes) : M (option error) :=
  match encoded with
  | [] => ret None
  | _ => write topic encoded
  end.

(** The framing loop over [in.GetMessages()]. *)
Fixpoint writeMessages (topic : Topic) (crc : Go.digest) (messages : list Message)
    : M unit :=
  match messages with
  | [] => ret tt
  | message :: rest =>
      match proto_Marshal message with
      | inl err => raise err
      | inr encoded =>
          let sizeBuf := Go.PutUint32 (Go.uint32 (len encoded + 5)) in
          err <- write topic sizeBuf ;;
          _ <- check err ;;
          let magicBuf := [0] in
          err <- write topic magicBuf ;;
          _ <- check err ;;
          let crc := Go.Reset crc in
          let _ := Go.Sum crc encoded in
          let sizeBuf := Go.PutUint32 (Go.uint32 (Go.Sum32 crc)) in
          err <- write topic sizeBuf ;;
          _ <- check err ;;
          err <- io_Copy topic encoded ;;
          writeMessages topic crc rest
      end
  end.

(** The lazy creation of a topic on its first publish. *)
Definition createTopic (dir topicName : string) : M Topic :=
  let offset := 0 in
  let messageSetPath :=
    Go.Join [dir; topicName; Go.pad12 offset +:+ ".pubsub"] in
  err <- call (EvMkdirAll (Go.Dir messageSetPath))
           (fun w => os_MkdirAll w (Go.Dir messageSetPath) perm0770) ;;
  _ <- check err ;;
  let flags := [O_RDWR; O_APPEND; O_CREATE] in
  r <- call (EvOpenFile messageSetPath flags)
         (fun w => os_OpenFile w messageSetPath flags perm0770) ;;
  match r with
  | inl err => raise err
  | inr f =>
      let messageSet := {| path := messageSetPath; offsetBegin := Go.uint64 offset |} in
      let topic := {| name := topicName;
                      messageSets := [] ++ [messageSet];
                      writer := bufio_NewWriter f |} in
      _ <- storeTopic topic ;;
      ret topic
  end.

Definition PublishMulti (dir : string) (req : PublishMultiRequest)
    : M PublishMultiReply :=
  found <- lookupTopic (pub_Topic req) ;;
  topic <- match found with
           | Some topic => ret topic
           | None => createTopic dir (pub_Topic req)
           end ;;
  _ <- writeMessages topic Go.NewIEEE (pub_Messages req) ;;
  err <- call (EvFlush (name topic)) (fun w => Topic_Flush w topic) ;;
  _ <- check err ;;
  ret Build_PublishMultiReply.

(** *** [Subscribe] *)

(** [fmt.Sprintf] with operands and no verbs appends them as [EXTRA]. *)
Definition errNoSuchTopic (topic : string) : error :=
  "No such topic: %!(EXTRA string=" +:+ topic +:+ ")".
Definition errNoMessageSets (topic : string) (offset : Z) : error :=
  "INTERNAL ERROR: No messagesets for topic: %!(EXTRA string=" +:+ topic
  +:+ ", string= offset: , uint64=" +:+ Go.decimal offset +:+ ")".

(** The search loop for the starting segment: keep the latest segment
    that begins at or before [offset], stop at the first that begins
    after it. *)
Fixpoint locate (sets : list MessageSet) (offset : Z) (messageSet : MessageSet)
    : MessageSet :=
  match sets with
  | [] => messageSet
  | s :: rest =>
      if offsetBegin s <=? offset then locate rest offset s
      else messageSet
  end.

Definition readMessage (mReader : Reader) : M (Reader * (error + bytes)) :=
  call EvRead (fun w => let '(w', r', res) := ReadMessage w mReader in (w', (r', res))).

(** [for i := uint64(0); i < bound; i++ { ReadMessage }]: [n] iterations
    are left to run, [i] messages have been skipped. *)
Fixpoint skipMessages (n : nat) (i : Z) (mReader : Reader) : M (Z * Reader) :=
  match n with
  | O => ret (i, mReader)
  | S n' =>
      got <- readMessage mReader ;;
      match got with
      | (_, inl err) => raise err
      | (mReader', inr _) => skipMessages n' (i + 1) mReader'
      end
  end.

(** The delivery loop [for { ... }]; it ends only by returning an error. *)
Fixpoint deliver (fuel : nat) (mReader : Reader) : M unit :=
  match fuel with
  | O => cutoff
  | S fuel' =>
      got <- readMessage mReader ;;
      match got with
      | (_, inl err) => raise err
      | (mReader', inr messageBytes) =>
          let '(message, _) := proto_Unmarshal messageBytes in
          let response := {| Messages := [] ++ [message] |} in
          err <- call (EvSend response) (fun w => srv_Send w response) ;;
          _ <- check err ;;
          deliver fuel' mReader'
      end
  end.

(** [Subscribe] up to the delivery loop: find the topic and the segment,
    open it, attach a listener and skip forward.  Yields the loop counter
    [i] (the number of messages skipped) and the reader. *)
Definition startReader (req : SubscribeRequest) : M (Z * Reader) :=
  found <- lookupTopic (sub_Topic req) ;;
  match found with
  | None => raise (errNoSuchTopic (sub_Topic req))
  | Some topic =>
      if len (messageSets topic) =? 0
      then raise (errNoMessageSets (name topic) (sub_Offset req))
      else
        first <- index (messageSets topic) 0 ;;
        let messageSet := locate (messageSets topic) (sub_Offset req) first in
        r <- call (EvOpen (path messageSet)) (fun w => os_Open w (path messageSet)) ;;
        match r with
        | inl err => raise err
        | inr f =>
            listener <- call (EvListen (name topic)) (fun w => Topic_Listen w topic) ;;
            let mReader := NewMessageSetReader f listener in
            let bound := Go.uint64 (sub_Offset req - offsetBegin messageSet) in
            skipMessages (Z.to_nat bound) 0 mReader
        end
  end.

Definition Subscribe (fuel : nat) (req : SubscribeRequest) : M unit :=
  started <- startReader req ;;
  deliver fuel (snd started).

End Server.

(* ===================================================================== *)
(** ** The Frame Codec of the specification *)
(* ===================================================================== *)

Module Frame.

(** The frame of a payload as the specification lays it out: length
    field, format marker, CRC-32 of the payload, payload. *)
Definition Encode (payload : bytes) : bytes :=
  Go.PutUint32 (Go.uint32 (Z.of_nat (length payload) + 5))
  ++ [0]
  ++ Go.PutUint32 (Go.ChecksumIEEE payload)
  ++ payload.

Definition CorruptFrame : error := "corrupt frame".

Inductive decoded :=
| Incomplete
| Corrupt
| Frame (marker checksum : Z) (payload rest : bytes).

(** Modelled from the spec: [Decode] is declared outside [server.go].
    Read the length field, then that many bytes; split them into marker,
    checksum and payload; recompute the checksum and compare. *)
Definition Decode (data : bytes) : decoded :=
  if Z.of_nat (length data) <? 4 then Incomplete
  else
    let n := Go.Uint32 (firstn 4 data) in
    let after := skipn 4 data in
    if Z.of_nat (length after) <? n then Incomplete
    else if n <? 5 then Corrupt
    else
      let body := firstn (Z.to_nat n) after in
      let checksum := Go.Uint32 (firstn 4 (skipn 1 body)) in
      let payload := skipn 5 body in
      if checksum =? Go.ChecksumIEEE payload
      then Frame (hd 0 body) checksum payload (skipn (Z.to_nat n) after)
      else Corrupt.

End Frame.

(* ===================================================================== *)
(** ** An in-memory environment *)
(* ===================================================================== *)

Module Mem.

Inductive Node := Directory | Regular (content : bytes).

(** The file system as a listing of paths (in directory order), the
    bytes buffered and not yet flushed per writer, and the outcomes of
    the coming [Topic.Write] calls ([None]: the call succeeds; [Some e]:
    the writer fails with [e] at that call and keeps the error; past the
    end of the script every call succeeds). *)
Record MemWorld := {
  fs : list (string * Node);
  pending : gmap string bytes;
  writeScript : list (option error)
}.

Definition ENOENT : error := "no such file or directory".
Definition ENOTDIR : error := "not a directory".
Definition EISDIR : error := "is a directory".
Definition ErrCanceled : error := "context canceled".
Definition ErrSegmentName : error := "bad segment file name".

Fixpoint find (p : string) (l : list (string * Node)) : option Node :=
  match l with
  | [] => None
  | (q, n) :: l' => if String.eqb p q then Some n else find p l'
  end.

Fixpoint store (p : string) (n : Node) (l : list (string * Node))
    : list (string * Node) :=
  match l with
  | [] => [(p, n)]
  | (q, m) :: l' => if String.eqb p q then (p, n) :: l' else (q, m) :: store p n l'
  end.

(** [path.Base] of a clean path: its last element. *)
Definition Base (p : string) : string := List.last (Go.split p) EmptyString.

Definition isDirectory (n : Node) : bool :=
  match n with Directory => true | Regular _ => false end.

Definition Stat (w : MemWorld) (p : string) : error + FileInfo :=
  match find (Go.Clean p) (fs w) with
  | Some n => inr {| fi_Name := Base (Go.Clean p); fi_IsDir := isDirectory n |}
  | None => inl ENOENT
  end.

Definition ReadDir (w : MemWorld) (d : string) : error + list FileInfo :=
  match find (Go.Clean d) (fs w) with
  | Some Directory =>
      inr (omap (fun '(p, n) =>
                   if String.eqb (Go.Dir p) (Go.Clean d) && negb (String.eqb p (Go.Clean d))
                   then Some {| fi_Name := Base p; fi_IsDir := isDirectory n |}
                   else None)
                (fs w))
  | Some (Regular _) => inl ENOTDIR
  | None => inl ENOENT
  end.

Fixpoint mkdirAll (fuel : nat) (p : string) (l : list (string * Node))
    : error + list (string * Node) :=
  match find p l with
  | Some Directory => inr l
  | Some (Regular _) => inl ENOTDIR
  | None =>
      match fuel with
      | O => inr (l ++ [(p, Directory)])
      | S fuel' =>
          if String.eqb (Go.Dir p) p || String.eqb (Go.Dir p) "."
          then inr (l ++ [(p, Directory)])
          else match mkdirAll fuel' (Go.Dir p) l with
               | inl e => inl e
               | inr l' => inr (l' ++ [(p, Directory)])
               end
      end
  end.

Definition MkdirAll (w : MemWorld) (p : string) (perm : Z) : MemWorld * option error :=
  match mkdirAll (String.length p) (Go.Clean p) (fs w) with
  | inl e => (w, Some e)
  | inr l => ({| fs := l; pending := pending w; writeScript := writeScript w |}, None)
  end.

Definition OpenFile (w : MemWorld) (p : string) (flags : list OpenFlag) (perm : Z)
    : MemWorld * (error + string) :=
  match find p (fs w) with
  | Some (Regular _) => (w, inr p)
  | Some Directory =>
      if bool_decide (flags = [O_RDONLY]) then (w, inr p) else (w, inl EISDIR)
  | None =>
      if bool_decide (O_CREATE ∈ flags) then
        match find (Go.Dir p) (fs w) with
        | Some Directory =>
            ({| fs := fs w ++ [(p, Regular [])]; pending := pending w;
                writeScript := writeScript w |}, inr p)
        | _ => (w, inl ENOENT)
        end
      else (w, inl ENOENT)
  end.

#[export] Instance sys : Sys := {|
  World := MemWorld;
  File := string;
  Writer := string;
  os_Stat := Stat;
  ioutil_ReadDir := ReadDir;
  os_MkdirAll := MkdirAll;
  os_OpenFile := OpenFile;
  os_Open := fun w p => OpenFile w p [O_RDONLY] 0;
  bufio_NewWriter := fun f => f;
  proto_Marshal := fun m => inr (Proto.Marshal m);
  proto_Unmarshal := Proto.Unmarshal;
  srv_Send := fun w _ => (w, None)
|}.

(** Modelled from the spec: [NewMessageSet] is declared outside
    [server.go]; a segment's starting offset is the number its file name
    spells before the extension. *)
Definition stem (p : string) : string :=
  let b := Base p in
  String.substring 0 (String.length b - String.length (Go.Ext b)) b.

Definition newMessageSet (w : MemWorld) (p : string) : error + MessageSet :=
  match NilZero.uint_of_string (stem p) with
  | Some u => inr {| path := p; offsetBegin := Z.of_N (N.of_uint u) |}
  | None => inl ErrSegmentName
  end.

Definition content (w : MemWorld) (p : string) : bytes :=
  match find p (fs w) with
  | Some (Regular b) => b
  | _ => []
  end.

(** [Topic.Write] on the [bufio.Writer] that [server.go] builds over the
    segment file (lines 81 and 107): the next outcome of the script; on
    success the bytes join the writer's buffer.  As in [bufio.Writer],
    an error stays: once a write has failed, every later [Write] and
    [Flush] returns the same error and accepts nothing. *)
Definition topicWrite (w : MemWorld) (t : Topic) (p : bytes) : MemWorld * option error :=
  let buffer rest :=
    {| fs := fs w;
       pending := <[writer t := default [] (pending w !! writer t) ++ p]> (pending w);
       writeScript := rest |} in
  match writeScript w with
  | Some e :: _ => (w, Some e)
  | None :: rest => (buffer rest, None)
  | [] => (buffer [], None)
  end.

(** [Topic.Flush]: the buffered bytes reach the file, unless the writer
    has failed. *)
Definition topicFlush (w : MemWorld) (t : Topic) : MemWorld * option error :=
  match writeScript w with
  | Some e :: _ => (w, Some e)
  | _ =>
      ({| fs := store (writer t)
                  (Regular (content w (writer t) ++ default [] (pending w !! writer t)))
                  (fs w);
          pending := delete (writer t) (pending w);
          writeScript := writeScript w |}, None)
  end.

(** The tailing reader: a file and a byte position in it. *)
Record MemReader := { rd_file : string; rd_pos : nat }.

(** Modelled from the spec: [ReadMessage] is declared outside
    [server.go].  This is the Tailing Reader of the specification
    (section 2: a per-subscriber cursor that reads sequentially from a
    segment and, on reaching end-of-file, blocks on the topic's
    notification instead of returning an end-of-stream signal; section
    4.5, step 4: decode a frame at the current position, on a partial or
    missing frame suspend until bytes are appended and retry at the same
    position).  [Subscribe] builds it from the handle of one file
    (line 177), and that file is all it reads.  The runs modelled here
    see no further append, so the wait at the end of the file ends when
    the subscriber's context is cancelled.  Reading a handle opened on a
    directory fails. *)
Definition readFrame (w : MemWorld) (r : MemReader)
    : MemWorld * MemReader * (error + bytes) :=
  match find (rd_file r) (fs w) with
  | Some Directory => (w, r, inl EISDIR)
  | _ =>
      let data := skipn (rd_pos r) (content w (rd_file r)) in
      match Frame.Decode data with
      | Frame.Incomplete => (w, r, inl ErrCanceled)
      | Frame.Corrupt => (w, r, inl Frame.CorruptFrame)
      | Frame.Frame _ _ payload rest =>
          (w, {| rd_file := rd_file r;
                 rd_pos := (rd_pos r + (length data - length rest))%nat |}, inr payload)
      end
  end.

#[export] Instance repo : Repo := {|
  Listener := unit;
  Reader := MemReader;
  NewMessageSet := newMessageSet;
  Topic_Write := topicWrite;
  Topic_Flush := topicFlush;
  Topic_Listen := fun w _ => (w, tt);
  NewMessageSetReader := fun f _ => {| rd_file := f; rd_pos := 0%nat |};
  ReadMessage := readFrame
|}.

Definition start (w : MemWorld) (ts : gmap string Topic) : State :=
  {| world := w; topics := ts; trace := [] |}.

Definition disk (l : list (string * Node)) : MemWorld :=
  {| fs := l; pending := ∅; writeScript := [] |}.

End Mem.

(* ===================================================================== *)
(** ** Reading a trace; the specification's words; scenarios *)
(* ===================================================================== *)

(** The byte slices handed to [Topic.Write], in call order. *)
Definition written (tr : list Event) : list bytes :=
  omap (fun ev => match ev with EvWrite _ p => Some p | _ => None end) tr.

(** The paths handed to [os.Open], in call order. *)
Definition opened (tr : list Event) : list string :=
  omap (fun ev => match ev with EvOpen p => Some p | _ => None end) tr.

(** The responses handed to [srv.Send], in call order. *)
Definition sent (tr : list Event) : list SubscribeResponse :=
  omap (fun ev => match ev with EvSend r => Some r | _ => None end) tr.

(** The number of [ReadMessage] calls. *)
Definition reads (tr : list Event) : nat :=
  length (omap (fun ev => match ev with EvRead => Some tt | _ => None end) tr).

(** The Segment Set's [Locate] in the specification's words: the last
    segment whose [offsetBegin <= offset]; if no segment qualifies, the
    first segment. *)
Definition LocateSpec (sets : list MessageSet) (offset : Z) : option MessageSet :=
  match sets with
  | [] => None
  | first :: _ =>
      Some (List.last (List.filter (fun s => offsetBegin s <=? offset) sets) first)
  end.

(** Segments in ascending order of [offsetBegin]. *)
Definition ascending (sets : list MessageSet) : Prop :=
  Sorted (fun a b => offsetBegin a <= offsetBegin b) sets.


(** Modelled from the spec: the payloads a segment file holds, as the
    Frame Codec decodes them one after the other from byte 0, up to the
    first position that holds no whole valid frame. *)
Fixpoint payloadsFuel (fuel : nat) (data : bytes) : list bytes :=
  match fuel with
  | O => []
  | S fuel' =>
      match Frame.Decode data with
      | Frame.Frame _ _ payload rest => payload :: payloadsFuel fuel' rest
      | _ => []
      end
  end.
Definition segmentPayloads (data : bytes) : list bytes :=
  payloadsFuel (length data) data.

(** The bytes of an in-memory reader's file from its position on. *)
Definition ahead (w : Mem.MemWorld) (r : Mem.MemReader) : bytes :=
  skipn (Mem.rd_pos r) (Mem.content w (Mem.rd_file r)).

(** The response the delivery loop builds from a payload (lines 194-198),
    with the unmarshalling of the in-memory environment. *)
Definition respond (payload : bytes) : SubscribeResponse :=
  {| Messages := [fst (Proto.Unmarshal payload)] |}.

(** A 4-byte little-endian field that holds [v], in the specification's
    words: the four bytes of [v], least significant first. *)
Definition littleEndian32 (v : Z) : bytes :=
  [v mod 256; v / 256 mod 256; v / 65536 mod 256; v / 16777216 mod 256].

Section Shapes.
Context `{S : Sys}.

(** The shape of one frame on the wire: a 4-byte little-endian length
    field that holds the payload length plus 5 as far as 32 bits hold it
    (the very number whenever it is below 2^32), the marker byte 0, a
    checksum field of four bytes, the payload. *)
Definition framed (message : Message) (frame : bytes) : Prop :=
  exists encoded lengthField checksumField,
    proto_Marshal message = inr encoded /\
    frame = lengthField ++ [0] ++ checksumField ++ encoded /\
    lengthField = littleEndian32 ((Z.of_nat (length encoded) + 5) mod 2 ^ 32) /\
    (Z.of_nat (length encoded) + 5 < 2 ^ 32 ->
     lengthField = littleEndian32 (Z.of_nat (length encoded) + 5)) /\
    length checksumField = 4%nat /\
    Forall (fun b => 0 <= b < 256) checksumField.

End Shapes.

Module Scenario.
Import Mem.

Definition msgA : Message := {| offset := 0; key := []; value := [97] |}.
Definition msgB : Message := {| offset := 1; key := []; value := [98] |}.
Definition msgC : Message := {| offset := 2; key := [107]; value := [99] |}.

(** An empty data directory. *)
Definition emptyDisk : MemWorld := disk [("data"%string, Directory)].

(** A data directory whose topic [t] holds no segment file. *)
Definition bareTopicDisk : MemWorld :=
  disk [("data"%string, Directory); ("data/t"%string, Directory)].

Definition seg (n : string) (b : Z) : MessageSet :=
  {| path := "data/t/" +:+ n; offsetBegin := b |}.

Definition topicOf (sets : list MessageSet) : Topic :=
  {| name := "t"; messageSets := sets;
     writer := path (List.last sets (seg "" 0)) |}.

(** Topic [t] with one segment that begins at offset 5 and holds two
    messages. *)
Definition lateSets : list MessageSet := [seg "000000000005.pubsub" 5].
Definition lateDisk : MemWorld :=
  disk [("data"%string, Directory); ("data/t"%string, Directory);
        ("data/t/000000000005.pubsub"%string,
         Regular (Frame.Encode (Proto.Marshal msgA) ++ Frame.Encode (Proto.Marshal msgB)))].

(** The reader and the state of that subscription once the segment is
    open and the listener attached. *)
Definition lateReader : Reader :=
  {| rd_file := "data/t/000000000005.pubsub"; rd_pos := 0 |}.
Definition lateOpened : State :=
  {| world := lateDisk; topics := {["t"%string := topicOf lateSets]};
     trace := [EvOpen "data/t/000000000005.pubsub"; EvListen "t"] |}.

(** Topic [t] with two segments of one message each. *)
Definition twoSets : list MessageSet :=
  [seg "000000000000.pubsub" 0; seg "000000000001.pubsub" 1].
Definition twoDisk : MemWorld :=
  disk [("data"%string, Directory); ("data/t"%string, Directory);
        ("data/t/000000000000.pubsub"%string, Regular (Frame.Encode (Proto.Marshal msgA)));
        ("data/t/000000000001.pubsub"%string, Regular (Frame.Encode (Proto.Marshal msgB)))].

(** Topic [t] whose segment holds a frame with a payload that is not a
    message (a field tag with nothing after it), then a good frame. *)
Definition oddPayload : bytes := [8].
Definition oddSets : list MessageSet := [seg "000000000000.pubsub" 0].
Definition oddDisk : MemWorld :=
  disk [("data"%string, Directory); ("data/t"%string, Directory);
        ("data/t/000000000000.pubsub"%string,
         Regular (Frame.Encode oddPayload ++ Frame.Encode (Proto.Marshal msgA)))].

(** A reader on that segment at byte [pos]. *)
Definition oddReader (pos : nat) : Reader :=
  {| rd_file := "data/t/000000000000.pubsub"; rd_pos := pos |}.

Definition diskFull : error := "no space left on device".

(** The disk of topic [t] with a writer that fails at its fourth write,
    and the world once the nine header bytes of a frame are buffered and
    the writer has failed. *)
Definition flakyTwo : MemWorld :=
  {| fs := fs twoDisk; pending := ∅;
     writeScript := [None; None; None; Some diskFull] |}.
Definition headerTaken : MemWorld :=
  fst (topicWrite (fst (topicWrite (fst (topicWrite flakyTwo (topicOf twoSets)
                                           [8; 0; 0; 0]))
                                   (topicOf twoSets) [0]))
                  (topicOf twoSets) [0; 0; 0; 0]).

(** A message whose encoding is 2^32 - 5 bytes long: one byte of tag,
    five of length, and 2^32 - 11 bytes of value. *)
Definition bigValue : bytes := repeat 0 (Z.to_nat (2 ^ 32 - 11)).
Definition bigMessage : Message := {| offset := 0; key := []; value := bigValue |}.

Definition serving (sets : list MessageSet) : gmap string Topic :=
  {["t"%string := topicOf sets]}.

(** The disk and the topic after the first publish to [orders]. *)
Definition createdDisk : MemWorld :=
  disk [("data"%string, Directory); ("data/orders"%string, Directory);
        ("data/orders/000000000000.pubsub"%string, Regular [])].
Definition ordersTopic : Topic :=
  {| name := "orders";
     messageSets := [{| path := "data/orders/000000000000.pubsub"; offsetBegin := 0 |}];
     writer := "data/orders/000000000000.pubsub"%string |}.

End Scenario.

(* ===================================================================== *)
(** ** Further vocabulary: frames as written, registry, kinds of calls *)
(* ===================================================================== *)

(** The topics handed to [Topic.Flush], in call order. *)
Definition flushed (tr : list Event) : list string :=
  omap (fun ev => match ev with EvFlush t => Some t | _ => None end) tr.

(** The calls a subscription may make: open, listen, read, and send a
    response that carries one message. *)
Definition subscribeEvent (ev : Event) : Prop :=
  match ev with
  | EvOpen _ | EvListen _ | EvRead => True
  | EvSend r => length (Messages r) = 1%nat
  | _ => False
  end.

(** The calls the skip phase may make. *)
Definition startEvent (ev : Event) : Prop :=
  match ev with
  | EvOpen _ | EvListen _ | EvRead => True
  | _ => False
  end.

(** Writes to and flushes of the topic named [n]. *)
Definition appendEvent (n : string) (ev : Event) : Prop :=
  match ev with
  | EvWrite t _ | EvFlush t => t = n
  | _ => False
  end.

(** Writes to the topic named [n]. *)
Definition writeEvent (n : string) (ev : Event) : Prop :=
  match ev with
  | EvWrite t _ => t = n
  | _ => False
  end.

(** Opening an existing file for appending. *)
Definition discoveryEvent (ev : Event) : Prop :=
  match ev with
  | EvOpenFile _ flags => flags = [O_WRONLY; O_APPEND]
  | _ => False
  end.

(** The entries of a directory listing that [init] takes for segments. *)
Definition pubsubFiles (listing : list FileInfo) : list FileInfo :=
  List.filter (fun fi => bool_decide (Go.Ext (fi_Name fi) = ".pubsub"%string)) listing.

(** The subdirectories of a listing, by name. *)
Definition directories (listing : list FileInfo) : list string :=
  List.map fi_Name (List.filter fi_IsDir listing).

(** The nine bytes the framing loop writes before a payload: the length
    field, the marker, and the checksum field as lines 132-134 compute it. *)
Definition header (encoded : bytes) : bytes :=
  Go.PutUint32 (Go.uint32 (Z.of_nat (length encoded) + 5))
  ++ [0]
  ++ Go.PutUint32 (Go.uint32 (Go.Sum32 (Go.Reset Go.NewIEEE))).

(** The frame the framing loop writes for a payload. *)
Definition emitted (encoded : bytes) : bytes := header encoded ++ encoded.

Section Observations.
Context `{R : Repo}.

(** [encs] are the encodings of [messages], in order. *)
Definition marshalled (messages : list Message) (encs : list bytes) : Prop :=
  Forall2 (fun m e => proto_Marshal m = inr e) messages encs.

(** Every registered topic is filed under its own name and has at least
    one segment. *)
Definition wellFormed (ts : gmap string Topic) : Prop :=
  forall k t, ts !! k = Some t -> name t = k /\ messageSets t <> [].

(** From [s] to [s'] the trace grew by calls of kind [P] only. *)
Definition grows (P : Event -> Prop) (s s' : State) : Prop :=
  exists added, trace s' = trace s ++ added /\ Forall P added.

(** The same, and the registry is as it was. *)
Definition quiet (P : Event -> Prop) (s s' : State) : Prop :=
  topics s' = topics s /\ grows P s s'.

End Observations.

Section Writers.
Context `{R : Repo}.

(** The writer of topic [t] has failed with [e]: like a [bufio.Writer]
    that holds an error, it refuses every [Write] and the [Flush] with
    that error and takes nothing in. *)
Definition broken (w : World) (t : Topic) (e : error) : Prop :=
  (forall p, Topic_Write w t p = (w, Some e)) /\ Topic_Flush w t = (w, Some e).

(** The errors of the topic writers stay, as those of the [bufio.Writer]
    that lines 81 and 107 put over the segment file. *)
Definition sticky : Prop :=
  forall w t p w' e, Topic_Write w t p = (w', Some e) -> broken w' t e.

(** From world [w], the encoding of [message] or one of its writes (the
    length field, the marker, the checksum field, the payload) fails with
    [e]; [failed] is the world as that call leaves it. *)
Definition failsIn (topic : Topic) (message : Message) (w failed : World) (e : error)
    : Prop :=
  (proto_Marshal message = inl e /\ failed = w)
  \/ exists encoded,
       proto_Marshal message = inr encoded /\
       let sizeBuf := Go.PutUint32 (Go.uint32 (Z.of_nat (length encoded) + 5)) in
       let sumBuf := Go.PutUint32 (Go.uint32 (Go.Sum32 (Go.Reset Go.NewIEEE))) in
       (Topic_Write w topic sizeBuf = (failed, Some e)
        \/ exists w1,
             Topic_Write w topic sizeBuf = (w1, None) /\
             (Topic_Write w1 topic [0] = (failed, Some e)
              \/ exists w2,
                   Topic_Write w1 topic [0] = (w2, None) /\
                   (Topic_Write w2 topic sumBuf = (failed, Some e)
                    \/ exists w3,
                         Topic_Write w2 topic sumBuf = (w3, None) /\
                         encoded <> [] /\
                         Topic_Write w3 topic encoded = (failed, Some e)))).

End Writers.

Module Cases.
Import Mem Scenario.

(** A registry that serves topic [t] with the two segments, on a disk
    where their files are missing. *)
Definition missingFiles : State := Mem.start emptyDisk (serving twoSets).

(** The registry and disk of topic [t] with its two segments. *)
Definition twoSegments : State := Mem.start twoDisk (serving twoSets).

(** The registry and disk of topic [t] with its segment from offset 5. *)
Definition lateSegment : State := Mem.start lateDisk (serving lateSets).

(** A disk on which the second [Topic.Write] fails. *)
Definition stuckDisk : MemWorld :=
  {| fs := fs twoDisk; pending := ∅; writeScript := [None; Some diskFull] |}.

(** A data directory in which a plain file sits where the directory of
    topic [orders] would go. *)
Definition blockedDisk : MemWorld :=
  disk [("data"%string, Directory); ("data/orders"%string, Regular [])].

(** Listings of a topic directory. *)
Definition entry (n : string) : FileInfo := {| fi_Name := n; fi_IsDir := false |}.
Definition mixedListing : list FileInfo :=
  [entry "000000000000.pubsub"; entry "notes.txt"; entry "000000000007.pubsub"].

End Cases.

(* ===================================================================== *)
(** ** Facts about the library models *)
(* ===================================================================== *)

Lemma byte_bits (x n : Z) :
  0 <= n -> Z.testbit (Go.byte x) n = if n <? 8 then Z.testbit x n else false.
Proof.
  intros Hn. unfold Go.byte.
  destruct (Z.ltb_spec n 8).
  - apply Z.mod_pow2_bits_low. lia.
  - apply Z.mod_pow2_bits_high. lia.
Qed.

(** Reading back the four little-endian bytes of a 32-bit value. *)
Lemma Uint32_PutUint32 (v : Z) : 0 <= v < 2 ^ 32 -> Go.Uint32 (Go.PutUint32 v) = v.
Proof.
  intros Hv. unfold Go.PutUint32, Go.Uint32.
  apply Z.bits_inj'. intros n Hn.
  rewrite !Z.lor_spec.
  rewrite !Z.shiftl_spec by lia.
  rewrite byte_bits by lia.
  destruct (Z.ltb_spec n 8).
  { rewrite !(Z.testbit_neg_r _ (n - _)) by lia. rewrite !orb_false_r. reflexivity. }
  rewrite orb_false_l.
  destruct (Z.ltb_spec n 16).
  { rewrite byte_bits by lia.
    rewrite (Z.testbit_neg_r _ (n - 16)), (Z.testbit_neg_r _ (n - 24)) by lia.
    rewrite Z.shiftr_spec by lia.
    replace (n - 8 <? 8) with true by (symmetry; apply Z.ltb_lt; lia).
    rewrite !orb_false_r. f_equal. lia. }
  rewrite (byte_bits _ (n - 8)) by lia.
  replace (n - 8 <? 8) with false by (symmetry; apply Z.ltb_ge; lia).
  rewrite orb_false_l.
  destruct (Z.ltb_spec n 24).
  { rewrite byte_bits by lia. rewrite (Z.testbit_neg_r _ (n - 24)) by lia.
    rewrite Z.shiftr_spec by lia.
    replace (n - 16 <? 8) with true by (symmetry; apply Z.ltb_lt; lia).
    rewrite !orb_false_r. f_equal. lia. }
  rewrite (byte_bits _ (n - 16)) by lia.
  replace (n - 16 <? 8) with false by (symmetry; apply Z.ltb_ge; lia).
  rewrite orb_false_l.
  rewrite byte_bits by lia. rewrite Z.shiftr_spec by lia.
  replace (n - 24 + 24) with n by lia.
  destruct (Z.ltb_spec (n - 24) 8); [reflexivity|].
  symmetry. destruct (Z.eq_dec v 0) as [->|]; [apply Z.bits_0|].
  apply Z.bits_above_log2; [lia|].
  assert (Z.log2 v < 32) by (apply Z.log2_lt_pow2; lia). lia.
Qed.

(** [PutUint32] stores the four bytes of its argument, least significant
    first. *)
Lemma PutUint32_littleEndian32 (v : Z) : Go.PutUint32 v = littleEndian32 v.
Proof.
  unfold Go.PutUint32, littleEndian32, Go.byte.
  rewrite !Z.shiftr_div_pow2 by lia. reflexivity.
Qed.

Lemma littleEndian32_bytes (v : Z) : Forall (fun b => 0 <= b < 256) (littleEndian32 v).
Proof. unfold littleEndian32. repeat constructor; apply Z.mod_pos_bound; lia. Qed.

(** After [Reset], [Sum32] is the checksum of no bytes, whatever slice
    [Sum] was handed in between. *)
Lemma Sum32_after_Reset (d : Go.digest) : Go.Sum32 (Go.Reset d) = 0.
Proof. reflexivity. Qed.

Lemma written_app (a b : list Event) : written (a ++ b) = written a ++ written b.
Proof. apply omap_app. Qed.

Lemma opened_app (a b : list Event) : opened (a ++ b) = opened a ++ opened b.
Proof. apply omap_app. Qed.

(* ===================================================================== *)
(** ** Facts about the server, in every environment *)
(* ===================================================================== *)

Section Framing.
Context `{R : Repo}.

Lemma io_Copy_written (topic : Topic) (encoded : bytes) (s s' : State) r :
  io_Copy topic encoded s = (s', r) ->
  concat (written (trace s')) = concat (written (trace s)) ++ encoded
  /\ exists err, r = Ok err.
Proof.
  destruct encoded as [|b encoded]; cbn.
  - intros [= <- <-]. rewrite app_nil_r. eauto.
  - unfold write, call.
    destruct (Topic_Write _ _ _) as [w err] eqn:E. intros [= <- <-]. cbn.
    rewrite written_app, concat_app. cbn. rewrite app_nil_r. eauto.
Qed.

Lemma writeMessages_frames_run (topic : Topic) (crc : Go.digest)
    (messages : list Message) (s s' : State) :
  writeMessages topic crc messages s = (s', Ok tt) ->
  exists frames,
    concat (written (trace s')) = concat (written (trace s)) ++ concat frames
    /\ Forall2 framed messages frames.
Proof.
  revert crc s. induction messages as [|message rest IH]; intros crc s Hrun.
  - cbn in Hrun. injection Hrun as <-. exists []. cbn. rewrite app_nil_r. auto.
  - cbn [writeMessages] in Hrun.
    destruct (proto_Marshal message) as [e|encoded] eqn:HM; [discriminate|].
    unfold bind at 1, write at 1, call in Hrun.
    destruct (Topic_Write _ _ _) as [w1 [e1|]]; [discriminate|]. cbn [check] in Hrun.
    unfold bind at 1, ret in Hrun.
    unfold bind at 1, write at 1, call in Hrun. cbn [world trace topics] in Hrun.
    destruct (Topic_Write _ _ _) as [w2 [e2|]]; [discriminate|]. cbn [check] in Hrun.
    unfold bind at 1, ret in Hrun.
    unfold bind at 1, write at 1, call in Hrun. cbn [world trace topics] in Hrun.
    destruct (Topic_Write _ _ _) as [w3 [e3|]]; [discriminate|]. cbn [check] in Hrun.
    unfold bind at 1, ret in Hrun.
    unfold bind at 1 in Hrun.
    destruct (io_Copy _ _ _) as [s4 r4] eqn:HC.
    apply io_Copy_written in HC as [Hw [err ->]]. cbn [trace] in Hw.
    destruct (IH _ _ Hrun) as (frames & Hframes & Hall).
    exists ((Go.PutUint32 (Go.uint32 (len encoded + 5)) ++ [0]
             ++ Go.PutUint32 (Go.uint32 (Go.Sum32 (Go.Reset crc))) ++ encoded) :: frames).
    split.
    + rewrite Hframes, Hw. rewrite !written_app, !concat_app. cbn.
      rewrite ?app_nil_r. rewrite <- ?app_assoc. reflexivity.
    + constructor; [|exact Hall].
      exists encoded, (Go.PutUint32 (Go.uint32 (len encoded + 5))),
        (Go.PutUint32 (Go.uint32 (Go.Sum32 (Go.Reset crc)))).
      split; [exact HM|]. split; [reflexivity|]. split; [|split; [|split]].
      * apply PutUint32_littleEndian32.
      * intros Hfits. rewrite PutUint32_littleEndian32. unfold Go.uint32, len.
        rewrite Z.mod_small by lia. reflexivity.
      * reflexivity.
      * rewrite PutUint32_littleEndian32. apply littleEndian32_bytes.
Qed.

(** C5, as the code has it. For every batch the framing loop writes
    through, the bytes handed to the topic's writer are the messages'
    frames one after the other, with nothing in between; each frame is a
    4-byte little-endian length field, the marker byte 0, a 4-byte
    checksum field and the payload.  The length field holds the payload
    length plus 5 reduced modulo 2^32: the payload length plus 5 itself
    whenever that is below 2^32. *)
Theorem writeMessages_emits_frames (topic : Topic) (crc : Go.digest)
    (messages : list Message) (s : State) :
  snd (writeMessages topic crc messages s) = Ok tt ->
  exists frames,
    concat (written (trace (fst (writeMessages topic crc messages s))))
    = concat (written (trace s)) ++ concat frames
    /\ Forall2 framed messages frames.
Proof.
  intros Hok.
  destruct (writeMessages topic crc messages s) as [s' r] eqn:Hrun.
  cbn [snd] in Hok. subst r. cbn [fst].
  exact (writeMessages_frames_run topic crc messages s s' Hrun).
Qed.

End Framing.

Section Loops.
Context `{R : Repo}.

(** *** The registry and the opened files along the loops *)

Lemma writeMessages_topics (topic : Topic) (crc : Go.digest)
    (messages : list Message) (s : State) :
  topics (fst (writeMessages topic crc messages s)) = topics s.
Proof.
  revert crc s. induction messages as [|message rest IH]; intros crc s; [reflexivity|].
  cbn [writeMessages].
  destruct (proto_Marshal message) as [e|encoded]; [reflexivity|].
  unfold bind at 1, write at 1, call.
  destruct (Topic_Write _ _ _) as [w1 [e1|]]; [reflexivity|]. cbn [check].
  unfold bind at 1, ret.
  unfold bind at 1, write at 1, call. cbn [world trace topics].
  destruct (Topic_Write _ _ _) as [w2 [e2|]]; [reflexivity|]. cbn [check].
  unfold bind at 1, ret.
  unfold bind at 1, write at 1, call. cbn [world trace topics].
  destruct (Topic_Write _ _ _) as [w3 [e3|]]; [reflexivity|]. cbn [check].
  unfold bind at 1, ret.
  unfold bind at 1.
  destruct encoded as [|b encoded]; cbn [io_Copy].
  - unfold ret. rewrite IH. reflexivity.
  - unfold write, call. cbn [world trace topics].
    destruct (Topic_Write _ _ _) as [w4 r4]. rewrite IH. reflexivity.
Qed.

Lemma skipMessages_opened (n : nat) (i : Z) (mReader : Reader) (s : State) :
  opened (trace (fst (skipMessages n i mReader s))) = opened (trace s).
Proof.
  revert i mReader s. induction n as [|n IH]; intros i mReader s; [reflexivity|].
  cbn [skipMessages]. unfold bind, readMessage, call.
  destruct (ReadMessage _ _) as [[w r] [e|payload]]; cbn.
  - rewrite opened_app. cbn. apply app_nil_r.
  - rewrite IH. cbn. rewrite opened_app. cbn. apply app_nil_r.
Qed.

Lemma deliver_opened (fuel : nat) (mReader : Reader) (s : State) :
  opened (trace (fst (deliver fuel mReader s))) = opened (trace s).
Proof.
  revert mReader s. induction fuel as [|fuel IH]; intros mReader s; [reflexivity|].
  cbn [deliver]. unfold bind at 1, readMessage, call.
  destruct (ReadMessage _ _) as [[w r] [e|payload]]; cbn.
  - rewrite opened_app. cbn. apply app_nil_r.
  - destruct (proto_Unmarshal payload) as [message uerr].
    unfold bind at 1, call. cbn [world trace topics].
    destruct (srv_Send _ _) as [w' [e|]]; cbn.
    + rewrite !opened_app. cbn. rewrite !app_nil_r. reflexivity.
    + unfold bind, ret. cbn.
      specialize (IH r {| world := w'; topics := topics s;
        trace := (trace s ++ [EvRead]) ++
                 [EvSend {| Messages := [message] |}] |}).
      destruct (deliver fuel r _) as [s' [| | |]]; cbn in *;
        rewrite IH, !opened_app; cbn; rewrite !app_nil_r; reflexivity.
Qed.

(** [startReader] on a registered topic with at least one segment: open
    the located segment, attach a listener, enter the skip loop. *)
Lemma startReader_found (req : SubscribeRequest) (s : State) (topic : Topic)
    (first : MessageSet) (rest : list MessageSet) :
  topics s !! sub_Topic req = Some topic ->
  messageSets topic = first :: rest ->
  let messageSet := locate (first :: rest) (sub_Offset req) first in
  startReader req s =
    match os_Open (world s) (path messageSet) with
    | (w1, inl err) =>
        ({| world := w1; topics := topics s;
            trace := trace s ++ [EvOpen (path messageSet)] |}, Err err)
    | (w1, inr f) =>
        let '(w2, listener) := Topic_Listen w1 topic in
        skipMessages
          (Z.to_nat (Go.uint64 (sub_Offset req - offsetBegin messageSet))) 0
          (NewMessageSetReader f listener)
          {| world := w2; topics := topics s;
             trace := (trace s ++ [EvOpen (path messageSet)])
                      ++ [EvListen (name topic)] |}
    end.
Proof.
  intros Hfound Hsets messageSet.
  subst messageSet.
  unfold startReader, bind at 1, lookupTopic. rewrite Hfound, Hsets.
  remember (locate (first :: rest) (sub_Offset req)) as chosen eqn:Hchosen.
  change (len (first :: rest) =? 0) with false. cbv iota.
  unfold bind at 1, index. change (0 <? 0) with false. cbv iota.
  change ((first :: rest) !! Z.to_nat 0) with (Some first). cbv iota.
  unfold ret, bind at 1, call.
  destruct (os_Open (world s) (path (chosen first))) as [w1 [err|f]]; [reflexivity|].
  unfold bind at 1, call. cbn.
  destruct (Topic_Listen w1 topic) as [w2 listener]. reflexivity.
Qed.

Lemma startReader_skips (req : SubscribeRequest) (s : State) (topic : Topic)
    (first : MessageSet) (rest : list MessageSet) (w1 : World) (f : File)
    (w2 : World) (listener : Listener) :
  topics s !! sub_Topic req = Some topic ->
  messageSets topic = first :: rest ->
  os_Open (world s) (path (locate (first :: rest) (sub_Offset req) first))
    = (w1, inr f) ->
  Topic_Listen w1 topic = (w2, listener) ->
  startReader req s =
    skipMessages
      (Z.to_nat (Go.uint64 (sub_Offset req
                            - offsetBegin (locate (first :: rest) (sub_Offset req) first))))
      0 (NewMessageSetReader f listener)
      {| world := w2; topics := topics s;
         trace := (trace s ++ [EvOpen (path (locate (first :: rest) (sub_Offset req) first))])
                  ++ [EvListen (name topic)] |}.
Proof.
  intros Hfound Hsets Hopen Hlisten.
  rewrite (startReader_found req s topic first rest Hfound Hsets).
  cbv zeta. rewrite Hopen, Hlisten. reflexivity.
Qed.

(** The skip loop counts its reads. *)
Lemma skipMessages_count (n : nat) (i : Z) (mReader : Reader) (s s' : State)
    (i' : Z) (mReader' : Reader) :
  skipMessages n i mReader s = (s', Ok (i', mReader')) ->
  i' = i + Z.of_nat n /\ reads (trace s') = (reads (trace s) + n)%nat.
Proof.
  revert i mReader s. induction n as [|n IH]; intros i mReader s Hrun.
  - cbn in Hrun. injection Hrun as <- <- <-. split; lia.
  - cbn [skipMessages] in Hrun. unfold bind, readMessage, call in Hrun.
    destruct (ReadMessage _ _) as [[w r] [e|payload]]; [discriminate|].
    cbn in Hrun. apply IH in Hrun as [-> Hreads]. cbn in Hreads.
    split; [lia|]. rewrite Hreads. unfold reads. rewrite omap_app, length_app. cbn. lia.
Qed.

(** A failing read ends the skip loop, however many iterations were
    still to come. *)
Lemma skipMessages_stops (k n : nat) (i : Z) (mReader : Reader) (s : State)
    (i1 : Z) (r1 r2 : Reader) (e : error) :
  snd (skipMessages k i mReader s) = Ok (i1, r1) ->
  snd (readMessage r1 (fst (skipMessages k i mReader s))) = Ok (r2, inl e) ->
  (k < n)%nat ->
  skipMessages n i mReader s
  = (fst (readMessage r1 (fst (skipMessages k i mReader s))), Err e).
Proof.
  revert n i mReader s. induction k as [|k IH]; intros n i mReader s Hk Hread Hlt.
  - cbn in Hk. injection Hk as <- <-. cbn [skipMessages ret fst] in *.
    destruct n as [|n]; [lia|]. cbn [skipMessages]. unfold bind.
    destruct (readMessage mReader s) as [s2 res]. cbn [snd fst] in *.
    rewrite Hread. reflexivity.
  - destruct n as [|n]; [lia|]. cbn [skipMessages] in *. unfold bind in *.
    destruct (readMessage mReader s) as [s0 [[r0 [e0|payload]]| | |]];
      try discriminate Hk.
    apply (IH n _ _ _ Hk Hread). lia.
Qed.

End Loops.

Section Behaviour.
Context `{R : Repo}.

Lemma startReader_opened (req : SubscribeRequest) (s : State) (topic : Topic)
    (first : MessageSet) (rest : list MessageSet) :
  topics s !! sub_Topic req = Some topic ->
  messageSets topic = first :: rest ->
  opened (trace (fst (startReader req s)))
  = opened (trace s) ++ [path (locate (first :: rest) (sub_Offset req) first)].
Proof.
  intros Hfound Hsets. rewrite (startReader_found req s topic first rest Hfound Hsets).
  destruct (os_Open _ _) as [w1 [err|f]].
  - cbn [fst trace]. apply opened_app.
  - destruct (Topic_Listen w1 topic) as [w2 listener].
    rewrite skipMessages_opened. cbn [trace]. rewrite !opened_app. cbn.
    apply app_nil_r.
Qed.

Lemma last_cons_default {A} (a d : A) (l : list A) :
  List.last (a :: l) d = List.last l a.
Proof.
  revert a d. induction l as [|b l IH]; intros a d; [reflexivity|].
  change (List.last (a :: b :: l) d) with (List.last (b :: l) d).
  rewrite (IH b d), (IH b a). reflexivity.
Qed.

(** On an ascending list the search loop returns the last segment that
    begins at or before the offset, and the segment it started with when
    there is none. *)
Lemma locate_last_filter (sets : list MessageSet) (offset : Z) (cur : MessageSet) :
  ascending sets ->
  locate sets offset cur
  = List.last (List.filter (fun s => offsetBegin s <=? offset) sets) cur.
Proof.
  intros Hsorted. apply Sorted_StronglySorted in Hsorted; [|intros a b c; lia].
  revert cur. induction Hsorted as [|a l Hl IH Hall]; intros cur; [reflexivity|].
  cbn [locate List.filter].
  destruct (Z.leb_spec (offsetBegin a) offset) as [Hle|Hgt].
  - rewrite last_cons_default. apply IH.
  - replace (List.filter (fun s => offsetBegin s <=? offset) l) with (@nil MessageSet);
      [reflexivity|].
    clear IH Hl. induction Hall as [|b l Hb Hall IH]; [reflexivity|].
    cbn. destruct (Z.leb_spec (offsetBegin b) offset); [lia|exact IH].
Qed.

(** C6. For every Subscribe call with offset [O] on a topic whose segment
    list is non-empty and ascending in [offsetBegin], the segment opened
    for reading is the one the specification's Locate names: the last
    segment with [offsetBegin <= O], or the first segment when no segment
    qualifies. *)
Theorem startReader_opens_located (req : SubscribeRequest) (s : State)
    (topic : Topic) :
  topics s !! sub_Topic req = Some topic ->
  messageSets topic <> [] ->
  ascending (messageSets topic) ->
  exists chosen,
    LocateSpec (messageSets topic) (sub_Offset req) = Some chosen
    /\ opened (trace (fst (startReader req s))) = opened (trace s) ++ [path chosen].
Proof.
  intros Hfound Hne Hsorted.
  destruct (messageSets topic) as [|first rest] eqn:Hsets; [congruence|].
  exists (locate (first :: rest) (sub_Offset req) first). split.
  - unfold LocateSpec. f_equal. symmetry. apply locate_last_filter, Hsorted.
  - apply (startReader_opened req s topic first rest Hfound Hsets).
Qed.

(** A subscription opens one file, the located segment's. *)
Lemma Subscribe_opened (fuel : nat) (req : SubscribeRequest)
    (s : State) (topic : Topic) (first : MessageSet) (rest : list MessageSet) :
  topics s !! sub_Topic req = Some topic ->
  messageSets topic = first :: rest ->
  opened (trace (fst (Subscribe fuel req s)))
  = opened (trace s) ++ [path (locate (first :: rest) (sub_Offset req) first)].
Proof.
  intros Hfound Hsets.
  rewrite <- (startReader_opened req s topic first rest Hfound Hsets).
  unfold Subscribe, bind.
  destruct (startReader req s) as [s' [started| | |]]; try reflexivity.
  cbn [fst]. apply deliver_opened.
Qed.

Lemma segmentFileName : Go.pad12 0 +:+ ".pubsub" = "000000000000.pubsub"%string.
Proof. vm_compute. reflexivity. Qed.

Lemma PublishMulti_known (dir : string) (req : PublishMultiRequest) (s : State)
    (topic : Topic) :
  topics s !! pub_Topic req = Some topic ->
  PublishMulti dir req s =
    match writeMessages topic Go.NewIEEE (pub_Messages req) s with
    | (s1, Ok _) =>
        let '(w, err) := Topic_Flush (world s1) topic in
        ({| world := w; topics := topics s1;
            trace := trace s1 ++ [EvFlush (name topic)] |},
         match err with
         | Some e => Err e
         | None => Ok Build_PublishMultiReply
         end)
    | (s1, Err e) => (s1, Err e)
    | (s1, Panic msg) => (s1, Panic msg)
    | (s1, Cutoff) => (s1, Cutoff)
    end.
Proof.
  intros Hfound. unfold PublishMulti, bind at 1, lookupTopic. rewrite Hfound.
  unfold bind at 1, ret. unfold bind at 1.
  destruct (writeMessages _ _ _ _) as [s1 [[]| | |]]; try reflexivity.
  unfold bind at 1, call. destruct (Topic_Flush _ _) as [w [e|]]; reflexivity.
Qed.

Lemma PublishMulti_unknown (dir : string) (req : PublishMultiRequest) (s : State)
    (w1 w2 : World) (f : File) :
  topics s !! pub_Topic req = None ->
  let p := Go.Join [dir; pub_Topic req; "000000000000.pubsub"%string] in
  let flags := [O_RDWR; O_APPEND; O_CREATE] in
  os_MkdirAll (world s) (Go.Dir p) perm0770 = (w1, None) ->
  os_OpenFile w1 p flags perm0770 = (w2, inr f) ->
  let topic := {| name := pub_Topic req;
                  messageSets := [{| path := p; offsetBegin := 0 |}];
                  writer := bufio_NewWriter f |} in
  PublishMulti dir req s =
  PublishMulti dir req
    {| world := w2; topics := <[pub_Topic req := topic]> (topics s);
       trace := trace s ++ [EvMkdirAll (Go.Dir p); EvOpenFile p flags] |}.
Proof.
  intros Hnone p flags Hmk Hopen topic.
  match goal with
  | |- _ = PublishMulti _ _ ?s2 =>
      rewrite (PublishMulti_known dir req s2 topic) by apply lookup_insert_eq
  end.
  unfold PublishMulti, bind at 1, lookupTopic. rewrite Hnone.
  unfold bind at 1, createTopic. rewrite segmentFileName. fold p.
  unfold bind at 1, call. rewrite Hmk. cbn [check].
  unfold bind at 1, ret. unfold bind at 1, call. cbn [world topics trace].
  fold flags. rewrite Hopen.
  unfold bind at 1, storeTopic. cbn [world topics trace name].
  change (Go.uint64 0) with 0. change ([] ++ [{| path := p; offsetBegin := 0 |}])
    with [{| path := p; offsetBegin := 0 |}]. fold topic.
  rewrite <- app_assoc. cbn [app].
  unfold bind at 1.
  destruct (writeMessages _ _ _ _) as [s1 [[]| | |]]; try reflexivity.
  unfold bind at 1, call. destruct (Topic_Flush _ _) as [w [e|]]; reflexivity.
Qed.

Lemma PublishMulti_known_topics (dir : string) (req : PublishMultiRequest)
    (s : State) (topic : Topic) :
  topics s !! pub_Topic req = Some topic ->
  topics (fst (PublishMulti dir req s)) = topics s.
Proof.
  intros Hfound. rewrite (PublishMulti_known dir req s topic Hfound).
  pose proof (writeMessages_topics topic Go.NewIEEE (pub_Messages req) s) as Hw.
  destruct (writeMessages _ _ _ _) as [s1 [[]| | |]]; cbn [fst] in *; try exact Hw.
  destruct (Topic_Flush _ _) as [w err]. exact Hw.
Qed.

(** C9. In the delivery loop, when a frame was read and its payload fails
    to unmarshal, the unmarshal error is dropped: the response carrying
    the message object is handed to Send all the same, and when Send
    succeeds the loop goes on with the next read. *)
Theorem deliver_ignores_unmarshal_error (fuel : nat) (mReader mReader' : Reader)
    (s : State) (w1 w2 : World) (messageBytes : bytes) (message : Message)
    (e : error) :
  ReadMessage (world s) mReader = (w1, mReader', inr messageBytes) ->
  proto_Unmarshal messageBytes = (message, Some e) ->
  srv_Send w1 {| Messages := [message] |} = (w2, None) ->
  deliver (S fuel) mReader s =
  deliver fuel mReader'
    {| world := w2; topics := topics s;
       trace := trace s ++ [EvRead; EvSend {| Messages := [message] |}] |}.
Proof.
  intros Hread Hunmarshal Hsend.
  cbn [deliver]. unfold bind at 1, readMessage, call. rewrite Hread, Hunmarshal.
  unfold bind at 1, call. cbn [world topics trace app]. rewrite Hsend.
  cbn [check]. unfold bind at 1, ret. rewrite <- app_assoc. reflexivity.
Qed.

(** C10. PublishMulti with an unknown topic name and no messages creates
    and registers the topic (directory, segment file opened with the
    create flag and never written to, one segment with [offsetBegin = 0])
    and returns success; every other registry entry is as before. *)
Theorem PublishMulti_empty_batch_creates_topic (dir topicName : string)
    (s : State) (w1 w2 w3 : World) (f : File) :
  topics s !! topicName = None ->
  let p := Go.Join [dir; topicName; "000000000000.pubsub"%string] in
  let flags := [O_RDWR; O_APPEND; O_CREATE] in
  os_MkdirAll (world s) (Go.Dir p) perm0770 = (w1, None) ->
  os_OpenFile w1 p flags perm0770 = (w2, inr f) ->
  let topic := {| name := topicName;
                  messageSets := [{| path := p; offsetBegin := 0 |}];
                  writer := bufio_NewWriter f |} in
  Topic_Flush w2 topic = (w3, None) ->
  let run := PublishMulti dir {| pub_Topic := topicName; pub_Messages := [] |} s in
  run = ({| world := w3; topics := <[topicName := topic]> (topics s);
            trace := trace s ++ [EvMkdirAll (Go.Dir p); EvOpenFile p flags;
                                 EvFlush topicName] |},
         Ok Build_PublishMultiReply)
  /\ forall other, other <> topicName ->
       topics (fst run) !! other = topics s !! other.
Proof.
  intros Hnone p flags Hmk Hopen topic Hflush run.
  assert (Hrun : run = ({| world := w3; topics := <[topicName := topic]> (topics s);
            trace := trace s ++ [EvMkdirAll (Go.Dir p); EvOpenFile p flags;
                                 EvFlush topicName] |},
         Ok Build_PublishMultiReply)).
  { subst run.
    rewrite (PublishMulti_unknown dir {| pub_Topic := topicName; pub_Messages := [] |}
               s w1 w2 f Hnone Hmk Hopen).
    cbn [pub_Topic]. fold p flags topic.
    match goal with
    | |- PublishMulti _ ?r ?s2 = _ =>
        rewrite (PublishMulti_known dir r s2 topic) by apply lookup_insert_eq
    end.
    cbn [pub_Messages writeMessages]. unfold ret. cbn [world topics trace name].
    rewrite Hflush. rewrite <- app_assoc. reflexivity. }
  split; [exact Hrun|].
  intros other Hother. rewrite Hrun. cbn [fst topics].
  apply lookup_insert_ne. congruence.
Qed.

End Behaviour.

(* ===================================================================== *)
(** ** How runs compose *)
(* ===================================================================== *)

Section Composition.
Context `{R : Repo}.

Lemma grows_refl (P : Event -> Prop) (s : State) : grows P s s.
Proof. exists []. split; [symmetry; apply app_nil_r | constructor]. Qed.

Lemma grows_trans (P : Event -> Prop) (s1 s2 s3 : State) :
  grows P s1 s2 -> grows P s2 s3 -> grows P s1 s3.
Proof.
  intros (a & Ha & HPa) (b & Hb & HPb). exists (a ++ b). split.
  - rewrite Hb, Ha. symmetry. apply app_assoc.
  - apply Forall_app. split; assumption.
Qed.

Lemma grows_weaken (P Q : Event -> Prop) (s s' : State) :
  (forall ev, P ev -> Q ev) -> grows P s s' -> grows Q s s'.
Proof.
  intros HPQ (a & Ha & HPa). exists a. split; [exact Ha|].
  eapply Forall_impl; [exact HPa | exact HPQ].
Qed.

Lemma quiet_refl (P : Event -> Prop) (s : State) : quiet P s s.
Proof. split; [reflexivity | apply grows_refl]. Qed.

Lemma quiet_trans (P : Event -> Prop) (s1 s2 s3 : State) :
  quiet P s1 s2 -> quiet P s2 s3 -> quiet P s1 s3.
Proof.
  intros [T1 G1] [T2 G2]. split; [congruence | eapply grows_trans; eassumption].
Qed.

Lemma quiet_weaken (P Q : Event -> Prop) (s s' : State) :
  (forall ev, P ev -> Q ev) -> quiet P s s' -> quiet Q s s'.
Proof. intros HPQ [T G]. split; [exact T | eapply grows_weaken; eassumption]. Qed.

(** A relation between states that is transitive passes through [bind]. *)
Lemma bind_steps (Rel : State -> State -> Prop) {A B : Type}
    (c : M A) (k : A -> M B) (s : State) :
  (forall s1 s2 s3, Rel s1 s2 -> Rel s2 s3 -> Rel s1 s3) ->
  Rel s (fst (c s)) ->
  (forall a s', Rel s' (fst (k a s'))) ->
  Rel s (fst (bind c k s)).
Proof.
  intros Htrans Hc Hk. unfold bind.
  destruct (c s) as [s1 [a| | |]]; cbn [fst] in *; try exact Hc.
  eapply Htrans; [exact Hc | apply Hk].
Qed.

Lemma call_quiet (P : Event -> Prop) {A : Type} (ev : Event)
    (f : World -> World * A) (s : State) :
  P ev -> quiet P s (fst (call ev f s)).
Proof.
  intros HP. unfold call. destruct (f (world s)) as [w a]. cbn. split; [reflexivity|].
  exists [ev]. split; [reflexivity | constructor; [exact HP | constructor]].
Qed.

Lemma check_state (err : option error) (s : State) : fst (check err s) = s.
Proof. destruct err; reflexivity. Qed.

Lemma index_state {A : Type} (l : list A) (i : Z) (s : State) : fst (index l i s) = s.
Proof.
  unfold index. destruct (i <? 0); [reflexivity|].
  destruct (l !! Z.to_nat i); reflexivity.
Qed.

End Composition.

(* ===================================================================== *)
(** ** More about subscriptions *)
(* ===================================================================== *)

Section Subscribing.
Context `{R : Repo}.

Lemma sent_app (a b : list Event) : sent (a ++ b) = sent a ++ sent b.
Proof. apply omap_app. Qed.

Lemma reads_app (a b : list Event) : reads (a ++ b) = (reads a + reads b)%nat.
Proof. unfold reads. rewrite omap_app. apply length_app. Qed.

Lemma sent_startEvents (added : list Event) : Forall startEvent added -> sent added = [].
Proof.
  induction 1 as [|ev l Hev _ IH]; [reflexivity|].
  destruct ev; cbn in *; try contradiction; exact IH.
Qed.

(** The search loop returns a segment of the list; that segment begins at
    or before the offset, unless it is the first segment and already
    begins after it. *)
Lemma locate_from (sets : list MessageSet) (offset : Z) (cur : MessageSet) :
  locate sets offset cur = cur
  \/ (In (locate sets offset cur) sets /\ offsetBegin (locate sets offset cur) <= offset).
Proof.
  revert cur. induction sets as [|s rest IH]; intros cur; [left; reflexivity|].
  cbn [locate]. destruct (Z.leb_spec (offsetBegin s) offset) as [Hle|Hgt]; [|left; reflexivity].
  right. destruct (IH s) as [-> | [Hin Hbound]].
  - split; [left; reflexivity | exact Hle].
  - split; [right; exact Hin | exact Hbound].
Qed.

Lemma locate_chooses_a_segment_aux (first : MessageSet) (rest : list MessageSet)
    (offset : Z) :
  In (locate (first :: rest) offset first) (first :: rest)
  /\ (offsetBegin (locate (first :: rest) offset first) <= offset
      \/ (locate (first :: rest) offset first = first /\ offset < offsetBegin first)).
Proof.
  cbn [locate]. destruct (Z.leb_spec (offsetBegin first) offset) as [Hle|Hgt].
  - destruct (locate_from rest offset first) as [-> | [Hin Hbound]].
    + split; [left; reflexivity | left; exact Hle].
    + split; [right; exact Hin | left; exact Hbound].
  - split; [left; reflexivity | right; split; [reflexivity | exact Hgt]].
Qed.

(** X1. The segment Subscribe settles on is one of the topic's segments; it
    begins at or before the requested offset, unless the first segment
    already begins after it (then it is that first segment). *)
Theorem locate_chooses_a_segment (first : MessageSet) (rest : list MessageSet)
    (offset : Z) :
  let chosen := locate (first :: rest) offset first in
  In chosen (first :: rest)
  /\ (offsetBegin chosen <= offset \/ (chosen = first /\ offset < offsetBegin first)).
Proof. cbv zeta. apply locate_chooses_a_segment_aux. Qed.

(** X2. The search loop stops at the first segment that begins after the
    offset: that segment and every segment listed after it are never
    chosen, whatever their offsets (the list need not be sorted). *)
Theorem locate_stops_at_first_later_segment (before after : list MessageSet)
    (s cur : MessageSet) (offset : Z) :
  offset < offsetBegin s ->
  locate (before ++ s :: after) offset cur = locate before offset cur.
Proof.
  intros Hgt. revert cur. induction before as [|b before IH]; intros cur.
  - cbn. destruct (Z.leb_spec (offsetBegin s) offset); [lia | reflexivity].
  - cbn. destruct (offsetBegin b <=? offset); [apply IH | reflexivity].
Qed.

Lemma skipMessages_quiet (n : nat) (i : Z) (mReader : Reader) (s : State) :
  quiet startEvent s (fst (skipMessages n i mReader s)).
Proof.
  revert i mReader s. induction n as [|n IH]; intros i mReader s; [apply quiet_refl|].
  cbn [skipMessages]. apply bind_steps; [apply quiet_trans | |].
  - unfold readMessage. apply call_quiet. exact I.
  - intros [r' [e|payload]] s'; [apply quiet_refl | apply IH].
Qed.

Lemma deliver_quiet (fuel : nat) (mReader : Reader) (s : State) :
  quiet subscribeEvent s (fst (deliver fuel mReader s)).
Proof.
  revert mReader s. induction fuel as [|fuel IH]; intros mReader s; [apply quiet_refl|].
  cbn [deliver]. apply bind_steps; [apply quiet_trans | |].
  - unfold readMessage. apply call_quiet. exact I.
  - intros [r' [e|payload]] s'; [apply quiet_refl|].
    destruct (proto_Unmarshal payload) as [message uerr].
    apply bind_steps; [apply quiet_trans | apply call_quiet; reflexivity |].
    intros err s''. apply bind_steps; [apply quiet_trans | |].
    + rewrite check_state. apply quiet_refl.
    + intros _ s3. apply IH.
Qed.

Lemma startReader_quiet (req : SubscribeRequest) (s : State) :
  quiet startEvent s (fst (startReader req s)).
Proof.
  unfold startReader. apply bind_steps; [apply quiet_trans | apply quiet_refl |].
  intros [topic|] s1; [|apply quiet_refl].
  destruct (len (messageSets topic) =? 0); [apply quiet_refl|].
  apply bind_steps; [apply quiet_trans | rewrite index_state; apply quiet_refl |].
  intros first s2.
  apply bind_steps; [apply quiet_trans | apply call_quiet; exact I |].
  intros [err|f] s3; [apply quiet_refl|].
  apply bind_steps; [apply quiet_trans | apply call_quiet; exact I |].
  intros listener s4. apply skipMessages_quiet.
Qed.

(** X3. A subscription leaves the registry as it is and makes no call besides
    opening for reading, listening, reading, and sending responses of one
    message each: it never writes, flushes, or creates a file or a
    directory. *)
Theorem Subscribe_only_reads_and_sends (fuel : nat) (req : SubscribeRequest)
    (s : State) :
  quiet subscribeEvent s (fst (Subscribe fuel req s)).
Proof.
  unfold Subscribe. apply bind_steps; [apply quiet_trans | |].
  - eapply quiet_weaken; [|apply startReader_quiet].
    intros ev; destruct ev; cbn; auto; contradiction.
  - intros started s'. apply deliver_quiet.
Qed.

(** X4. When finding the topic, opening the segment or skipping fails,
    Subscribe returns that error and has sent nothing. *)
Theorem Subscribe_start_error_sends_nothing (fuel : nat) (req : SubscribeRequest)
    (s : State) (e : error) :
  snd (startReader req s) = Err e ->
  Subscribe fuel req s = (fst (startReader req s), Err e)
  /\ sent (trace (fst (Subscribe fuel req s))) = sent (trace s).
Proof.
  intros Hfail.
  assert (Hrun : Subscribe fuel req s = (fst (startReader req s), Err e)).
  { unfold Subscribe, bind. destruct (startReader req s) as [s' r].
    cbn [snd fst] in *. subst r. reflexivity. }
  split; [exact Hrun|]. rewrite Hrun. cbn [fst].
  destruct (startReader_quiet req s) as [_ (added & -> & Hadded)].
  rewrite sent_app, (sent_startEvents added Hadded). apply app_nil_r.
Qed.

(** X5. When the topic's first segment begins at or before the requested
    offset, the skip bound does not wrap: a skip phase that completes has
    read and dropped exactly [offset - offsetBegin] messages of the located
    segment. *)
Theorem startReader_skips_to_offset (req : SubscribeRequest) (s : State)
    (topic : Topic) (first : MessageSet) (rest : list MessageSet)
    (i : Z) (mReader : Reader) :
  topics s !! sub_Topic req = Some topic ->
  messageSets topic = first :: rest ->
  Forall (fun m => 0 <= offsetBegin m) (first :: rest) ->
  offsetBegin first <= sub_Offset req < 2 ^ 64 ->
  snd (startReader req s) = Ok (i, mReader) ->
  let begin := offsetBegin (locate (first :: rest) (sub_Offset req) first) in
  0 <= begin <= sub_Offset req
  /\ i = sub_Offset req - begin
  /\ reads (trace (fst (startReader req s))) = (reads (trace s) + Z.to_nat i)%nat.
Proof.
  intros Hfound Hsets Hnonneg [Hfirst Hrange] Hok begin.
  destruct (locate_chooses_a_segment_aux first rest (sub_Offset req)) as [Hin Hbound].
  fold begin in Hbound.
  assert (Hbegin : 0 <= begin <= sub_Offset req).
  { split.
    - apply (proj1 (List.Forall_forall _ _) Hnonneg _ Hin).
    - destruct Hbound as [Hle | [_ Hgt]]; [exact Hle | lia]. }
  split; [exact Hbegin|].
  rewrite (startReader_found req s topic first rest Hfound Hsets) in Hok |- *.
  cbv zeta in Hok |- *. fold begin in Hok |- *.
  destruct (os_Open _ _) as [w1 [err|f]]; [discriminate Hok|].
  destruct (Topic_Listen w1 topic) as [w2 listener].
  destruct (skipMessages _ _ _ _) as [s' r] eqn:Hskip. cbn [snd fst] in *. subst r.
  apply skipMessages_count in Hskip as [-> Hreads].
  assert (Hbound64 : Go.uint64 (sub_Offset req - begin) = sub_Offset req - begin).
  { unfold Go.uint64. apply Z.mod_small. lia. }
  rewrite Hbound64 in *.
  split; [lia|]. rewrite Hreads. cbn [trace]. rewrite !reads_app. cbn. lia.
Qed.

End Subscribing.

Section Delivering.
Context `{R : Repo}.

(** One turn of the delivery loop. *)
Lemma deliver_S (fuel : nat) (mReader : Reader) (s : State) :
  deliver (S fuel) mReader s =
    match ReadMessage (world s) mReader with
    | (w1, r1, inl e) =>
        ({| world := w1; topics := topics s; trace := trace s ++ [EvRead] |}, Err e)
    | (w1, r1, inr messageBytes) =>
        let response := {| Messages := [fst (proto_Unmarshal messageBytes)] |} in
        match srv_Send w1 response with
        | (w2, Some e) =>
            ({| world := w2; topics := topics s;
                trace := trace s ++ [EvRead; EvSend response] |}, Err e)
        | (w2, None) =>
            deliver fuel r1
              {| world := w2; topics := topics s;
                 trace := trace s ++ [EvRead; EvSend response] |}
        end
    end.
Proof.
  cbn [deliver]. unfold bind at 1, readMessage, call.
  destruct (ReadMessage _ _) as [[w1 r1] [e|messageBytes]]; [reflexivity|].
  destruct (proto_Unmarshal messageBytes) as [message uerr]. cbn [fst].
  unfold bind at 1, call. cbn [world topics trace app].
  destruct (srv_Send _ _) as [w2 [e|]]; cbn [check].
  - unfold bind, raise. rewrite <- app_assoc. reflexivity.
  - unfold bind at 1, ret. rewrite <- app_assoc. reflexivity.
Qed.

(** X6. The delivery loop never returns normally; it sends one response per
    message read, in step with the reads: when it stops on a read error it
    has read once more than it has sent, when it stops on a send error the
    failed send was the last call, and while it runs reads and sends are
    level. *)
Theorem deliver_reads_then_sends (fuel : nat) (mReader : Reader) (s : State) :
  exists added,
    trace (fst (deliver fuel mReader s)) = trace s ++ added
    /\ match snd (deliver fuel mReader s) with
       | Ok _ | Panic _ => False
       | Cutoff => reads added = fuel /\ length (sent added) = fuel
       | Err _ =>
           (reads added <= fuel)%nat
           /\ (reads added = S (length (sent added))
               \/ (reads added = length (sent added)
                   /\ exists r, last added = Some (EvSend r)))
       end.
Proof.
  revert mReader s. induction fuel as [|fuel IH]; intros mReader s.
  - exists []. cbn. rewrite app_nil_r. auto.
  - rewrite deliver_S.
    destruct (ReadMessage _ _) as [[w1 r1] [e|messageBytes]].
    + exists [EvRead]. cbn. split; [reflexivity|]. split; [lia | left; reflexivity].
    + cbv zeta. destruct (srv_Send _ _) as [w2 [e|]].
      * eexists [EvRead; EvSend _]. cbn. split; [reflexivity|].
        split; [lia | right; split; [reflexivity | eexists; reflexivity]].
      * match goal with
        | |- context [deliver fuel r1 ?s2] => destruct (IH r1 s2) as (added & Htrace & Hend)
        end.
        cbn [trace] in Htrace.
        eexists ([EvRead; EvSend _] ++ added). split.
        { rewrite Htrace. rewrite <- app_assoc. reflexivity. }
        destruct (snd (deliver fuel r1 _)); try contradiction.
        -- destruct Hend as [Hle Hcount]. rewrite reads_app, sent_app, length_app.
           cbn. split; [lia|]. destruct Hcount as [Hc | [Hc [r Hlast]]].
           ++ left. lia.
           ++ right. split; [lia|]. exists r.
              destruct added as [|ev added]; [discriminate Hlast | exact Hlast].
        -- destruct Hend as [Hr Hs]. rewrite reads_app, sent_app, length_app. cbn. lia.
Qed.

End Delivering.

(* ===================================================================== *)
(** ** More about publishing *)
(* ===================================================================== *)

Section Publishing.
Context `{R : Repo}.

Lemma written_writes (n : string) (chunks : list bytes) :
  written (map (EvWrite n) chunks) = chunks.
Proof. induction chunks as [|c l IH]; [reflexivity|]. cbn. f_equal. exact IH. Qed.

Lemma flushed_app (a b : list Event) : flushed (a ++ b) = flushed a ++ flushed b.
Proof. apply omap_app. Qed.

Lemma flushed_writeEvents (n : string) (added : list Event) :
  Forall (writeEvent n) added -> flushed added = [].
Proof.
  induction 1 as [|ev l Hev _ IH]; [reflexivity|].
  destruct ev; cbn in *; try contradiction; exact IH.
Qed.

(** What the framing loop does with the first message of a batch: the
    encoding fails; or a header write fails after part of the header was
    handed over; or the whole frame was handed over and the loop goes on
    with the rest. *)
Lemma writeMessages_step (topic : Topic) (crc : Go.digest) (message : Message)
    (rest : list Message) (s : State) :
  (exists e, proto_Marshal message = inl e
             /\ writeMessages topic crc (message :: rest) s = (s, Err e))
  \/ (exists encoded s1 e chunks,
        proto_Marshal message = inr encoded
        /\ writeMessages topic crc (message :: rest) s = (s1, Err e)
        /\ topics s1 = topics s
        /\ trace s1 = trace s ++ map (EvWrite (name topic)) chunks
        /\ concat chunks `prefix_of` header encoded)
  \/ (exists encoded s1 chunks,
        proto_Marshal message = inr encoded
        /\ writeMessages topic crc (message :: rest) s
           = writeMessages topic (Go.Reset crc) rest s1
        /\ topics s1 = topics s
        /\ trace s1 = trace s ++ map (EvWrite (name topic)) chunks
        /\ concat chunks = emitted encoded).
Proof.
  remember (writeMessages topic crc (message :: rest) s) as run eqn:Hrun.
  cbn [writeMessages] in Hrun.
  destruct (proto_Marshal message) as [e|encoded] eqn:HM.
  { left. exists e. split; [reflexivity | exact Hrun]. }
  right.
  set (sizeBuf := Go.PutUint32 (Go.uint32 (len encoded + 5))) in *.
  set (sumBuf := Go.PutUint32 (Go.uint32 (Go.Sum32 (Go.Reset crc)))) in *.
  assert (Hheader : header encoded = sizeBuf ++ [0] ++ sumBuf) by reflexivity.
  cbv zeta in Hrun. fold sumBuf in Hrun.
  unfold bind at 1, write at 1, call in Hrun.
  destruct (Topic_Write (world s) topic sizeBuf) as [w1 [e1|]]; cbn [check] in Hrun.
  { left. eexists encoded, _, e1, [sizeBuf].
    split; [reflexivity|]. split; [exact Hrun|]. split; [reflexivity|].
    split; [reflexivity|].
    rewrite Hheader. cbn [concat]. rewrite app_nil_r. apply prefix_app_r. reflexivity. }
  unfold bind at 1, ret in Hrun.
  unfold bind at 1, write at 1, call in Hrun. cbn [world trace topics] in Hrun.
  destruct (Topic_Write w1 topic [0]) as [w2 [e2|]]; cbn [check] in Hrun.
  { left. eexists encoded, _, e2, [sizeBuf; [0]].
    split; [reflexivity|]. split; [exact Hrun|]. split; [reflexivity|]. split.
    - cbn [map trace]. rewrite <- ?app_assoc. reflexivity.
    - rewrite Hheader. cbn [concat]. rewrite app_nil_r, app_assoc.
      apply prefix_app_r. reflexivity. }
  unfold bind at 1, ret in Hrun.
  unfold bind at 1, write at 1, call in Hrun. cbn [world trace topics] in Hrun.
  destruct (Topic_Write w2 topic sumBuf) as [w3 [e3|]]; cbn [check] in Hrun.
  { left. eexists encoded, _, e3, [sizeBuf; [0]; sumBuf].
    split; [reflexivity|]. split; [exact Hrun|]. split; [reflexivity|]. split.
    - cbn [map trace]. rewrite <- ?app_assoc. reflexivity.
    - rewrite Hheader. cbn [concat]. rewrite app_nil_r. reflexivity. }
  unfold bind at 1, ret in Hrun.
  unfold bind at 1 in Hrun.
  right. destruct encoded as [|b encoded]; cbn [io_Copy] in Hrun.
  - unfold ret in Hrun. cbv beta iota in Hrun.
    eexists [], _, [sizeBuf; [0]; sumBuf].
    split; [reflexivity|]. split; [exact Hrun|]. split; [reflexivity|]. split.
    + cbn [map trace]. rewrite <- ?app_assoc. reflexivity.
    + unfold emitted. rewrite Hheader. cbn [concat]. rewrite ?app_nil_r. reflexivity.
  - unfold write, call in Hrun. cbn [world trace topics] in Hrun.
    destruct (Topic_Write w3 topic (b :: encoded)) as [w4 r4]. cbv beta iota in Hrun.
    eexists (b :: encoded), _, [sizeBuf; [0]; sumBuf; b :: encoded].
    split; [reflexivity|]. split; [exact Hrun|]. split; [reflexivity|]. split.
    + cbn [map trace]. rewrite <- ?app_assoc. reflexivity.
    + unfold emitted. rewrite Hheader. cbn [concat]. rewrite ?app_nil_r, <- ?app_assoc.
      reflexivity.
Qed.

(** The bytes of a frame as the loop writes it: the checksum field is four
    zero bytes whatever the payload. *)
Lemma emitted_bytes (encoded : bytes) :
  emitted encoded
  = Go.PutUint32 (Go.uint32 (Z.of_nat (length encoded) + 5)) ++ [0; 0; 0; 0; 0] ++ encoded.
Proof. unfold emitted, header. rewrite <- !app_assoc. reflexivity. Qed.

Lemma writeMessages_outcome (topic : Topic) (crc : Go.digest)
    (messages : list Message) (s : State) :
  let s' := fst (writeMessages topic crc messages s) in
  match snd (writeMessages topic crc messages s) with
  | Ok _ =>
      exists encs,
        marshalled messages encs
        /\ concat (written (trace s'))
           = concat (written (trace s)) ++ concat (map emitted encs)
  | Err e =>
      exists done failing rest encs partial,
        messages = done ++ failing :: rest
        /\ marshalled done encs
        /\ concat (written (trace s'))
           = concat (written (trace s)) ++ concat (map emitted encs) ++ partial
        /\ ((proto_Marshal failing = inl e /\ partial = [])
            \/ exists encoded,
                 proto_Marshal failing = inr encoded
                 /\ partial `prefix_of` header encoded)
  | _ => False
  end.
Proof.
  revert crc s. induction messages as [|message rest IH]; intros crc s.
  { cbn. exists []. split; [constructor | cbn; rewrite app_nil_r; reflexivity]. }
  destruct (writeMessages_step topic crc message rest s)
    as [(e & HM & ->) | [(encoded & s1 & e & chunks & HM & -> & _ & Htrace & Hprefix)
                        | (encoded & s1 & chunks & HM & -> & _ & Htrace & Hframe)]].
  - cbn. exists [], message, rest, [], []. split; [reflexivity|]. split; [constructor|].
    split; [cbn; rewrite app_nil_r; reflexivity | left; auto].
  - cbn. exists [], message, rest, [], (concat chunks). split; [reflexivity|].
    split; [constructor|]. split.
    + rewrite Htrace, written_app, written_writes, concat_app. reflexivity.
    + right. exists encoded. auto.
  - specialize (IH (Go.Reset crc) s1). cbv zeta in IH |- *.
    assert (Hs1 : concat (written (trace s1))
                  = concat (written (trace s)) ++ emitted encoded).
    { rewrite Htrace, written_app, written_writes, concat_app, Hframe. reflexivity. }
    destruct (snd (writeMessages topic (Go.Reset crc) rest s1)); try contradiction.
    + destruct IH as (encs & Hencs & Hbytes). exists (encoded :: encs). split.
      * constructor; assumption.
      * rewrite Hbytes, Hs1. cbn [map concat]. rewrite <- !app_assoc. reflexivity.
    + destruct IH as (done & failing & rest' & encs & partial & -> & Hencs & Hbytes & Hwhy).
      exists (message :: done), failing, rest', (encoded :: encs), partial.
      split; [reflexivity|]. split; [constructor; assumption|]. split; [|exact Hwhy].
      rewrite Hbytes, Hs1. cbn [map concat]. rewrite <- !app_assoc. reflexivity.
Qed.

(** X7. Every batch the framing loop writes through goes to the writer as the
    messages' frames in order, each frame the length field, five zero bytes
    (the marker and a checksum field that is zero for every payload) and
    the payload. *)
Theorem writeMessages_writes_these_bytes (topic : Topic) (crc : Go.digest)
    (messages : list Message) (s : State) :
  snd (writeMessages topic crc messages s) = Ok tt ->
  exists encs,
    marshalled messages encs
    /\ concat (written (trace (fst (writeMessages topic crc messages s))))
       = concat (written (trace s))
         ++ concat (map (fun encoded =>
                           Go.PutUint32 (Go.uint32 (Z.of_nat (length encoded) + 5))
                           ++ [0; 0; 0; 0; 0] ++ encoded) encs).
Proof.
  intros Hok. pose proof (writeMessages_outcome topic crc messages s) as Hout.
  cbv zeta in Hout. rewrite Hok in Hout. destruct Hout as (encs & Hencs & Hbytes).
  exists encs. split; [exact Hencs|]. rewrite Hbytes.
  rewrite (List.map_ext _ _ emitted_bytes). reflexivity.
Qed.

(** X8. When the framing loop returns an error, the writer was handed the
    whole frames of the messages before the failing one and at most the
    nine header bytes of the failing one: no payload byte of the failing
    message and nothing of the messages after it. *)
Theorem writeMessages_error_stops_the_batch (topic : Topic) (crc : Go.digest)
    (messages : list Message) (s : State) (e : error) :
  snd (writeMessages topic crc messages s) = Err e ->
  exists done failing rest encs partial,
    messages = done ++ failing :: rest
    /\ marshalled done encs
    /\ concat (written (trace (fst (writeMessages topic crc messages s))))
       = concat (written (trace s)) ++ concat (map emitted encs) ++ partial
    /\ ((proto_Marshal failing = inl e /\ partial = [])
        \/ exists encoded,
             proto_Marshal failing = inr encoded
             /\ partial `prefix_of` header encoded).
Proof.
  intros Herr. pose proof (writeMessages_outcome topic crc messages s) as Hout.
  cbv zeta in Hout. rewrite Herr in Hout. exact Hout.
Qed.

Lemma writeMessages_quiet (topic : Topic) (crc : Go.digest)
    (messages : list Message) (s : State) :
  quiet (writeEvent (name topic)) s (fst (writeMessages topic crc messages s)).
Proof.
  revert crc s. induction messages as [|message rest IH]; intros crc s; [apply quiet_refl|].
  destruct (writeMessages_step topic crc message rest s)
    as [(e & HM & ->) | [(encoded & s1 & e & chunks & HM & -> & Htopics & Htrace & _)
                        | (encoded & s1 & chunks & HM & -> & Htopics & Htrace & _)]].
  - apply quiet_refl.
  - split; [exact Htopics|]. exists (map (EvWrite (name topic)) chunks).
    split; [exact Htrace|]. apply Forall_map, Forall_forall. intros; reflexivity.
  - eapply quiet_trans; [|apply IH]. split; [exact Htopics|].
    exists (map (EvWrite (name topic)) chunks).
    split; [exact Htrace|]. apply Forall_map, Forall_forall. intros; reflexivity.
Qed.

(** X9. Publishing to a registered topic leaves the registry as it is and
    makes no call besides writes to and the flush of that topic: it never
    creates a directory or opens a file. *)
Theorem PublishMulti_registered_only_appends (dir : string)
    (req : PublishMultiRequest) (s : State) (topic : Topic) :
  topics s !! pub_Topic req = Some topic ->
  quiet (appendEvent (name topic)) s (fst (PublishMulti dir req s)).
Proof.
  intros Hfound. rewrite (PublishMulti_known dir req s topic Hfound).
  assert (Hw : quiet (appendEvent (name topic)) s
                 (fst (writeMessages topic Go.NewIEEE (pub_Messages req) s))).
  { eapply quiet_weaken; [|apply writeMessages_quiet].
    intros ev; destruct ev; cbn; tauto. }
  destruct (writeMessages _ _ _ _) as [s1 [[]| | |]]; cbn [fst] in *; try exact Hw.
  destruct (Topic_Flush _ _) as [w err]. cbn [fst].
  eapply quiet_trans; [exact Hw|]. split; [reflexivity|].
  exists [EvFlush (name topic)]. split; [reflexivity|].
  constructor; [reflexivity | constructor].
Qed.

(** X10. PublishMulti flushes once, after the whole batch, and only when the
    framing loop returned no error; an error of the loop is returned as it
    is, with no flush. *)
Theorem PublishMulti_flushes_after_full_batch (dir : string)
    (req : PublishMultiRequest) (s : State) (topic : Topic) :
  topics s !! pub_Topic req = Some topic ->
  let loop := writeMessages topic Go.NewIEEE (pub_Messages req) s in
  flushed (trace (fst (PublishMulti dir req s)))
  = flushed (trace s) ++ match snd loop with Ok _ => [name topic] | _ => [] end
  /\ forall e, snd loop = Err e -> PublishMulti dir req s = (fst loop, Err e).
Proof.
  intros Hfound loop. subst loop.
  rewrite (PublishMulti_known dir req s topic Hfound).
  destruct (writeMessages_quiet topic Go.NewIEEE (pub_Messages req) s)
    as [_ (added & Hadded & Hwrites)].
  apply flushed_writeEvents in Hwrites.
  destruct (writeMessages _ _ _ _) as [s1 [[]| | |]]; cbn [fst snd] in *.
  - destruct (Topic_Flush _ _) as [w err]. cbn [fst trace]. split.
    + rewrite flushed_app, Hadded, flushed_app, Hwrites, app_nil_r. reflexivity.
    + intros e He. discriminate He.
  - split; [rewrite Hadded, flushed_app, Hwrites; reflexivity|].
    intros e' [= ->]. reflexivity.
  - split; [rewrite Hadded, flushed_app, Hwrites; reflexivity | intros e' He; discriminate He].
  - split; [rewrite Hadded, flushed_app, Hwrites; reflexivity | intros e' He; discriminate He].
Qed.

(** The lazy creation, case by case. *)
Lemma createTopic_cases (dir topicName : string) (s : State) :
  let p := Go.Join [dir; topicName; "000000000000.pubsub"%string] in
  let flags := [O_RDWR; O_APPEND; O_CREATE] in
  createTopic dir topicName s =
    match os_MkdirAll (world s) (Go.Dir p) perm0770 with
    | (w1, Some e) =>
        ({| world := w1; topics := topics s;
            trace := trace s ++ [EvMkdirAll (Go.Dir p)] |}, Err e)
    | (w1, None) =>
        match os_OpenFile w1 p flags perm0770 with
        | (w2, inl e) =>
            ({| world := w2; topics := topics s;
                trace := trace s ++ [EvMkdirAll (Go.Dir p); EvOpenFile p flags] |}, Err e)
        | (w2, inr f) =>
            let topic := {| name := topicName;
                            messageSets := [{| path := p; offsetBegin := 0 |}];
                            writer := bufio_NewWriter f |} in
            ({| world := w2; topics := <[topicName := topic]> (topics s);
                trace := trace s ++ [EvMkdirAll (Go.Dir p); EvOpenFile p flags] |},
             Ok topic)
        end
    end.
Proof.
  intros p flags. unfold createTopic. rewrite segmentFileName. fold p.
  unfold bind at 1, call.
  destruct (os_MkdirAll _ _ _) as [w1 [e|]]; cbn [check]; [reflexivity|].
  unfold bind at 1, ret. unfold bind at 1, call. cbn [world topics trace]. fold flags.
  destruct (os_OpenFile _ _ _ _) as [w2 [e|f]].
  - unfold raise. rewrite <- app_assoc. reflexivity.
  - unfold bind, storeTopic, ret. cbn [world topics trace name].
    rewrite <- app_assoc. reflexivity.
Qed.

Lemma PublishMulti_failed_creation_cases (dir : string)
    (req : PublishMultiRequest) (s : State) (e : error) :
  topics s !! pub_Topic req = None ->
  snd (createTopic dir (pub_Topic req) s) = Err e ->
  snd (PublishMulti dir req s) = Err e
  /\ topics (fst (PublishMulti dir req s)) = topics s
  /\ written (trace (fst (PublishMulti dir req s))) = written (trace s).
Proof.
  intros Hnone Hfail.
  assert (Hrun : PublishMulti dir req s = (fst (createTopic dir (pub_Topic req) s), Err e)).
  { unfold PublishMulti, bind at 1, lookupTopic. rewrite Hnone. unfold bind at 1.
    destruct (createTopic dir (pub_Topic req) s) as [s1 r]. cbn [snd fst] in *.
    subst r. reflexivity. }
  rewrite Hrun. cbn [snd fst]. split; [reflexivity|].
  rewrite createTopic_cases in Hfail |- *. cbv zeta in Hfail |- *.
  destruct (os_MkdirAll _ _ _) as [w1 [e1|]].
  - cbn [snd fst topics trace] in *. split; [reflexivity|].
    rewrite written_app. apply app_nil_r.
  - destruct (os_OpenFile _ _ _ _) as [w2 [e2|f]]; [|discriminate Hfail].
    cbn [snd fst topics trace] in *. split; [reflexivity|].
    rewrite written_app. apply app_nil_r.
Qed.

(** X11. When the lazy creation of a topic fails (the directory cannot be made
    or the segment file cannot be opened), PublishMulti returns that
    error, registers nothing and writes nothing. *)
Theorem PublishMulti_failed_creation_registers_nothing (dir : string)
    (req : PublishMultiRequest) (s : State) (e : error) :
  topics s !! pub_Topic req = None ->
  snd (createTopic dir (pub_Topic req) s) = Err e ->
  snd (PublishMulti dir req s) = Err e
  /\ topics (fst (PublishMulti dir req s)) = topics s
  /\ written (trace (fst (PublishMulti dir req s))) = written (trace s).
Proof. exact (PublishMulti_failed_creation_cases dir req s e). Qed.

Lemma wellFormed_insert (ts : gmap string Topic) (t : Topic) :
  wellFormed ts -> messageSets t <> [] -> wellFormed (<[name t := t]> ts).
Proof.
  intros Hwf Hne k t' Hlook. destruct (decide (name t = k)) as [<-|Hneq].
  - rewrite lookup_insert_eq in Hlook. injection Hlook as <-. auto.
  - rewrite lookup_insert_ne in Hlook by exact Hneq. apply Hwf, Hlook.
Qed.

(** X12. PublishMulti keeps the registry well formed: every topic stays filed
    under its own name with at least one segment, whether the call creates
    a topic, appends to one, or fails. *)
Theorem PublishMulti_keeps_registry_well_formed (dir : string)
    (req : PublishMultiRequest) (s : State) :
  wellFormed (topics s) -> wellFormed (topics (fst (PublishMulti dir req s))).
Proof.
  intros Hwf. destruct (topics s !! pub_Topic req) as [topic|] eqn:Hfound.
  - rewrite (PublishMulti_known_topics dir req s topic Hfound). exact Hwf.
  - pose proof (createTopic_cases dir (pub_Topic req) s) as Hcases. cbv zeta in Hcases.
    destruct (os_MkdirAll (world s) _ perm0770) as [w1 [e|]] eqn:Hmk.
    + destruct (PublishMulti_failed_creation_cases dir req s e Hfound) as [_ [-> _]];
        [rewrite Hcases; reflexivity | exact Hwf].
    + destruct (os_OpenFile w1 _ _ perm0770) as [w2 [e|f]] eqn:Hopen.
      * destruct (PublishMulti_failed_creation_cases dir req s e Hfound) as [_ [-> _]];
          [rewrite Hcases; reflexivity | exact Hwf].
      * rewrite (PublishMulti_unknown dir req s w1 w2 f Hfound Hmk Hopen).
        cbv zeta.
        match goal with
        | |- wellFormed (topics (fst (PublishMulti _ _ ?s2))) =>
            rewrite (PublishMulti_known_topics dir req s2
                       (Build_Topic _ (pub_Topic req) _ (bufio_NewWriter f)))
              by apply lookup_insert_eq
        end.
        cbn [topics].
        apply (wellFormed_insert (topics s)
                 (Build_Topic _ (pub_Topic req) _ (bufio_NewWriter f)));
          [exact Hwf | discriminate].
Qed.

End Publishing.

(* ===================================================================== *)
(** ** The append path: failures, and the first publish to a topic *)
(* ===================================================================== *)

Section Appending.
Context `{R : Repo}.

Lemma bind_assoc {A B C} (c : M A) (k : A -> M B) (k' : B -> M C) (s : State) :
  bind (bind c k) k' s = bind c (fun a => bind (k a) k') s.
Proof. unfold bind. destruct (c s) as [s' [a| | |]]; reflexivity. Qed.

Lemma bind_ext {A B} (c : M A) (k k' : A -> M B) (s : State) :
  (forall a s', k a s' = k' a s') -> bind c k s = bind c k' s.
Proof. intros Hk. unfold bind. destruct (c s) as [s' [a| | |]]; auto. Qed.

(** The digest handed to the framing loop is reset before its first use. *)
Lemma writeMessages_crc (topic : Topic) (c1 c2 : Go.digest) (messages : list Message)
    (s : State) :
  writeMessages topic c1 messages s = writeMessages topic c2 messages s.
Proof. destruct messages; reflexivity. Qed.

(** The framing loop over a batch in two parts. *)
Lemma writeMessages_app (topic : Topic) (crc : Go.digest) (a b : list Message)
    (s : State) :
  writeMessages topic crc (a ++ b) s
  = bind (writeMessages topic crc a) (fun _ => writeMessages topic crc b) s.
Proof.
  revert crc s. induction a as [|message a IH]; intros crc s; [reflexivity|].
  cbn [app writeMessages].
  destruct (proto_Marshal message) as [e|encoded]; [reflexivity|].
  cbv zeta.
  rewrite bind_assoc. apply bind_ext. intros err1 s1.
  rewrite bind_assoc. apply bind_ext. intros [] s2.
  rewrite bind_assoc. apply bind_ext. intros err2 s3.
  rewrite bind_assoc. apply bind_ext. intros [] s4.
  rewrite bind_assoc. apply bind_ext. intros err3 s5.
  rewrite bind_assoc. apply bind_ext. intros [] s6.
  rewrite bind_assoc. apply bind_ext. intros err4 s7.
  rewrite IH. apply bind_ext. intros [] s8. apply writeMessages_crc.
Qed.

(** Publishing to a registered topic: the registry stays, and the calls
    are writes to and the flush of that topic. *)
Lemma PublishMulti_registered_steps (dir : string)
    (req : PublishMultiRequest) (s : State) (topic : Topic) :
  topics s !! pub_Topic req = Some topic ->
  quiet (appendEvent (name topic)) s (fst (PublishMulti dir req s)).
Proof.
  intros Hfound. rewrite (PublishMulti_known dir req s topic Hfound).
  assert (Hw : quiet (appendEvent (name topic)) s
                 (fst (writeMessages topic Go.NewIEEE (pub_Messages req) s))).
  { eapply quiet_weaken; [|apply writeMessages_quiet].
    intros ev; destruct ev; cbn; tauto. }
  destruct (writeMessages _ _ _ _) as [s1 [[]| | |]]; cbn [fst] in *; try exact Hw.
  destruct (Topic_Flush _ _) as [w err]. cbn [fst].
  eapply quiet_trans; [exact Hw|]. split; [reflexivity|].
  exists [EvFlush (name topic)]. split; [reflexivity|].
  constructor; [reflexivity | constructor].
Qed.

(** On a writer that has failed the framing loop takes nothing in: it
    ends at once, with the writer's error unless the next message does
    not even encode. *)
Lemma writeMessages_broken (topic : Topic) (crc : Go.digest) (messages : list Message)
    (s : State) (e : error) :
  broken (world s) topic e ->
  world (fst (writeMessages topic crc messages s)) = world s
  /\ match messages with
     | [] => snd (writeMessages topic crc messages s) = Ok tt
     | next :: _ =>
         snd (writeMessages topic crc messages s) = Err e
         \/ exists e', proto_Marshal next = inl e'
                       /\ snd (writeMessages topic crc messages s) = Err e'
     end.
Proof.
  intros [Hwrite _]. destruct messages as [|next later]; [split; reflexivity|].
  cbn [writeMessages]. destruct (proto_Marshal next) as [e'|encoded].
  - split; [reflexivity|]. right. exists e'. split; reflexivity.
  - cbv zeta. unfold bind, write, call. rewrite Hwrite. cbn [check]. unfold raise.
    split; [reflexivity | left; reflexivity].
Qed.

(** The framing loop from the message whose encoding or write fails. *)
Lemma writeMessages_failing (topic : Topic) (crc : Go.digest) (failing : Message)
    (rest : list Message) (s : State) (failed : World) (e : error) :
  sticky ->
  failsIn topic failing (world s) failed e ->
  world (fst (writeMessages topic crc (failing :: rest) s)) = failed
  /\ (snd (writeMessages topic crc (failing :: rest) s) = Err e
      \/ (rest = [] /\ broken failed topic e
          /\ snd (writeMessages topic crc (failing :: rest) s) = Ok tt)
      \/ exists next later e',
           rest = next :: later /\ proto_Marshal next = inl e'
           /\ snd (writeMessages topic crc (failing :: rest) s) = Err e').
Proof.
  intros Hsticky Hfails.
  remember (writeMessages topic crc (failing :: rest) s) as run eqn:Hrun.
  cbn [writeMessages] in Hrun.
  destruct Hfails as [[HM ->] | (encoded & HM & Hwrites)]; rewrite HM in Hrun.
  { subst run. split; [reflexivity | left; reflexivity]. }
  cbv zeta in Hrun, Hwrites.
  change (Go.Reset crc) with (Go.Reset Go.NewIEEE) in Hrun.
  unfold len in Hrun.
  unfold bind at 1, write at 1, call in Hrun.
  destruct Hwrites as [H1 | (w1 & H1 & Hwrites)]; rewrite H1 in Hrun; cbn [check] in Hrun.
  { subst run. split; [reflexivity | left; reflexivity]. }
  unfold bind at 1, ret in Hrun.
  unfold bind at 1, write at 1, call in Hrun. cbn [world trace topics] in Hrun.
  destruct Hwrites as [H2 | (w2 & H2 & Hwrites)]; rewrite H2 in Hrun; cbn [check] in Hrun.
  { subst run. split; [reflexivity | left; reflexivity]. }
  unfold bind at 1, ret in Hrun.
  unfold bind at 1, write at 1, call in Hrun. cbn [world trace topics] in Hrun.
  destruct Hwrites as [H3 | (w3 & H3 & Hpayload & H4)]; rewrite H3 in Hrun;
    cbn [check] in Hrun.
  { subst run. split; [reflexivity | left; reflexivity]. }
  unfold bind at 1, ret in Hrun.
  unfold bind at 1 in Hrun.
  destruct encoded as [|b encoded]; [contradiction|]. cbn [io_Copy] in Hrun.
  unfold write, call in Hrun. cbn [world trace topics] in Hrun. rewrite H4 in Hrun.
  cbv beta iota in Hrun.
  pose proof (Hsticky _ _ _ _ _ H4) as Hbroken.
  match type of Hrun with
  | run = writeMessages _ ?c _ ?s4 =>
      destruct (writeMessages_broken topic c rest s4 e Hbroken) as [Hworld Hend]
  end.
  rewrite <- Hrun in Hworld, Hend. cbn [world] in Hworld.
  split; [exact Hworld|].
  destruct rest as [|next later].
  - right; left. auto.
  - destruct Hend as [Hend | (e' & HM' & Hend)]; [left; exact Hend|].
    right; right. exists next, later, e'. auto.
Qed.

(** C3. On a writer whose errors stay, as those of the [bufio.Writer] that
    lines 81 and 107 build: when the encoding of a message of the batch or
    one of its four writes fails, the writer takes nothing in after that
    (the world is as the failing call left it) and PublishMulti returns an
    error: the error of the failure, or, after a failed payload write, the
    encoding error of the message that follows. *)
Theorem PublishMulti_stops_at_first_failure (dir : string)
    (req : PublishMultiRequest) (s s1 : State) (topic : Topic)
    (done rest : list Message) (failing : Message) (failed : World) (e : error) :
  sticky ->
  topics s !! pub_Topic req = Some topic ->
  pub_Messages req = done ++ failing :: rest ->
  writeMessages topic Go.NewIEEE done s = (s1, Ok tt) ->
  failsIn topic failing (world s1) failed e ->
  world (fst (PublishMulti dir req s)) = failed
  /\ (snd (PublishMulti dir req s) = Err e
      \/ exists next later e',
           rest = next :: later /\ proto_Marshal next = inl e'
           /\ snd (PublishMulti dir req s) = Err e').
Proof.
  intros Hsticky Hfound Hbatch Hdone Hfails.
  rewrite (PublishMulti_known dir req s topic Hfound).
  assert (Hrun : writeMessages topic Go.NewIEEE (done ++ failing :: rest) s
                 = writeMessages topic Go.NewIEEE (failing :: rest) s1).
  { rewrite writeMessages_app. unfold bind. rewrite Hdone. reflexivity. }
  rewrite Hbatch, Hrun.
  destruct (writeMessages_failing topic Go.NewIEEE failing rest s1 failed e
              Hsticky Hfails) as [Hworld Hend].
  destruct (writeMessages topic Go.NewIEEE (failing :: rest) s1) as [s2 r].
  cbn [fst snd] in Hworld, Hend.
  destruct Hend as [-> | [(_ & [_ Hflush] & ->) | (next & later & e' & Hrest & HM & ->)]].
  - split; [exact Hworld | left; reflexivity].
  - rewrite Hworld, Hflush. split; [reflexivity | left; reflexivity].
  - split; [exact Hworld|]. right. exists next, later, e'. auto.
Qed.

(** C7. For a topic name that is not in the registry, Subscribe returns
    the no-such-topic error and changes nothing, while PublishMulti
    creates the topic: it makes the topic directory, opens with the create
    flag the segment file named by offset 0 zero-padded to 12 digits plus
    [.pubsub], registers a Topic whose one segment has [offsetBegin = 0],
    and goes on with the append: after the two calls of the creation it
    makes only writes to and the flush of the new topic's writer, and when
    it returns success the writer was handed the frames of all the
    messages, in order, and flushed once. *)
Theorem unknown_topic_Subscribe_fails_PublishMulti_creates
    (dir topicName : string) (from : Z) (fuel : nat) (messages : list Message)
    (s : State) (w1 w2 : World) (f : File) :
  topics s !! topicName = None ->
  let p := Go.Join [dir; topicName; "000000000000.pubsub"%string] in
  let flags := [O_RDWR; O_APPEND; O_CREATE] in
  os_MkdirAll (world s) (Go.Dir p) perm0770 = (w1, None) ->
  os_OpenFile w1 p flags perm0770 = (w2, inr f) ->
  let topic := {| name := topicName;
                  messageSets := [{| path := p; offsetBegin := 0 |}];
                  writer := bufio_NewWriter f |} in
  let req := {| pub_Topic := topicName; pub_Messages := messages |} in
  let final := fst (PublishMulti dir req s) in
  Subscribe fuel {| sub_Topic := topicName; sub_Offset := from |} s
    = (s, Err (errNoSuchTopic topicName))
  /\ PublishMulti dir req s =
     PublishMulti dir req
       {| world := w2; topics := <[topicName := topic]> (topics s);
          trace := trace s ++ [EvMkdirAll (Go.Dir p); EvOpenFile p flags] |}
  /\ topics final !! topicName = Some topic
  /\ (exists added,
        trace final = trace s ++ [EvMkdirAll (Go.Dir p); EvOpenFile p flags] ++ added
        /\ Forall (appendEvent topicName) added)
  /\ (snd (PublishMulti dir req s) = Ok Build_PublishMultiReply ->
      exists encs,
        marshalled messages encs
        /\ concat (written (trace final))
           = concat (written (trace s))
             ++ concat (map (fun encoded =>
                               Go.PutUint32 (Go.uint32 (Z.of_nat (length encoded) + 5))
                               ++ [0; 0; 0; 0; 0] ++ encoded) encs)
        /\ flushed (trace final) = flushed (trace s) ++ [topicName]).
Proof.
  intros Hnone p flags Hmk Hopen topic req final.
  set (created := {| world := w2; topics := <[topicName := topic]> (topics s);
                     trace := trace s ++ [EvMkdirAll (Go.Dir p); EvOpenFile p flags] |}).
  assert (Hcreate : PublishMulti dir req s = PublishMulti dir req created)
    by exact (PublishMulti_unknown dir req s w1 w2 f Hnone Hmk Hopen).
  assert (Hfound : topics created !! pub_Topic req = Some topic)
    by apply lookup_insert_eq.
  split; [|split; [|split; [|split]]].
  - unfold Subscribe, bind, startReader, bind, lookupTopic. cbn [sub_Topic].
    rewrite Hnone. reflexivity.
  - exact Hcreate.
  - subst final. rewrite Hcreate.
    rewrite (PublishMulti_known_topics dir req _ topic Hfound).
    apply lookup_insert_eq.
  - subst final. rewrite Hcreate.
    destruct (PublishMulti_registered_steps dir req created topic Hfound)
      as [_ (added & Htrace & Hadded)].
    exists added. split; [|exact Hadded].
    rewrite Htrace. cbn [trace created]. rewrite <- app_assoc. reflexivity.
  - subst final. rewrite Hcreate.
    rewrite (PublishMulti_known dir req created topic Hfound).
    pose proof (writeMessages_outcome topic Go.NewIEEE messages created) as Hout.
    destruct (writeMessages_quiet topic Go.NewIEEE messages created)
      as [_ (added & Hadded & Hwrites)].
    apply flushed_writeEvents in Hwrites.
    cbv zeta in Hout. cbn [pub_Messages req].
    destruct (writeMessages topic Go.NewIEEE messages created) as [s1 [[]| | |]];
      cbn [fst snd] in *; try discriminate.
    destruct Hout as (encs & Hencs & Hbytes).
    destruct (Topic_Flush (world s1) topic) as [w [e|]]; cbn [fst snd]; [discriminate|].
    intros _. exists encs. split; [exact Hencs|]. cbn [trace]. split.
    + rewrite written_app, concat_app, Hbytes. cbn [trace created].
      rewrite written_app, concat_app. cbn. rewrite !app_nil_r.
      rewrite (List.map_ext _ _ emitted_bytes). reflexivity.
    + rewrite flushed_app, Hadded, flushed_app, Hwrites. cbn [trace created].
      rewrite flushed_app. cbn. rewrite !app_nil_r. reflexivity.
Qed.

End Appending.


(* ===================================================================== *)
(** ** More about startup discovery *)
(* ===================================================================== *)

Section Discovery.
Context `{R : Repo}.

Lemma insertMessageSet_length (x : MessageSet) (l : list MessageSet) :
  length (insertMessageSet x l) = S (length l).
Proof.
  induction l as [|y l IH]; [reflexivity|]. cbn.
  destruct (offsetBegin x <? offsetBegin y); cbn; [reflexivity | rewrite IH; reflexivity].
Qed.

Lemma MessageSetSort_length (l : list MessageSet) :
  length (MessageSetSort l) = length l.
Proof.
  induction l as [|x l IH]; [reflexivity|].
  change (MessageSetSort (x :: l)) with (insertMessageSet x (MessageSetSort l)).
  rewrite insertMessageSet_length, IH. reflexivity.
Qed.

(** [l[len(l)-1]]: the last element, or a panic on the empty slice. *)
Lemma index_last {A : Type} (l : list A) (s : State) :
  index l (len l - 1) s =
    match last l with
    | Some a => (s, Ok a)
    | None => (s, Panic "index out of range")
    end.
Proof.
  unfold index, len. destruct l as [|a l]; [reflexivity|].
  replace (Z.of_nat (length (a :: l)) - 1) with (Z.of_nat (length l))
    by (cbn [length]; lia).
  destruct (Z.ltb_spec (Z.of_nat (length l)) 0) as [Hneg|_]; [lia|].
  rewrite Nat2Z.id, last_lookup. cbn [length Nat.pred].
  destruct ((a :: l) !! length l) as [x|] eqn:Hx; [reflexivity|].
  apply lookup_ge_None in Hx. cbn in Hx. lia.
Qed.

(** The inner loop of discovery leaves the state alone and yields one
    MessageSet per [.pubsub] entry of the listing, in listing order; other
    entries are skipped; the first entry [NewMessageSet] rejects ends the
    loop with its error. *)
Lemma loadMessageSets_outcome (dir topicName : string) (files : list FileInfo)
    (acc : list MessageSet) (s : State) :
  fst (loadMessageSets dir topicName files acc s) = s
  /\ match snd (loadMessageSets dir topicName files acc s) with
     | Ok sets =>
         exists found,
           sets = acc ++ found
           /\ Forall2 (fun fi ms =>
                         NewMessageSet (world s) (Go.Join [dir; topicName; fi_Name fi])
                         = inr ms)
                      (pubsubFiles files) found
     | Err e =>
         exists before fi after found,
           pubsubFiles files = before ++ fi :: after
           /\ Forall2 (fun fi ms =>
                         NewMessageSet (world s) (Go.Join [dir; topicName; fi_Name fi])
                         = inr ms)
                      before found
           /\ NewMessageSet (world s) (Go.Join [dir; topicName; fi_Name fi]) = inl e
     | _ => False
     end.
Proof.
  revert acc. induction files as [|fi files IH]; intros acc.
  { cbn. split; [reflexivity|]. exists []. rewrite app_nil_r. split; [reflexivity|constructor]. }
  cbn [loadMessageSets pubsubFiles List.filter].
  destruct (decide (Go.Ext (fi_Name fi) = ".pubsub"%string)) as [Hext|Hext].
  - rewrite (bool_decide_eq_false_2 (Go.Ext (fi_Name fi) <> ".pubsub"%string)) by tauto.
    rewrite (bool_decide_eq_true_2 _ Hext).
    unfold bind, peek.
    destruct (NewMessageSet (world s) _) as [e|messageSet] eqn:Hnew.
    + cbn. split; [reflexivity|]. exists [], fi, (pubsubFiles files), [].
      split; [reflexivity|]. split; [constructor | exact Hnew].
    + destruct (IH (acc ++ [messageSet])) as [Hstate Hout]. split; [exact Hstate|].
      fold (pubsubFiles files).
      destruct (snd (loadMessageSets dir topicName files (acc ++ [messageSet]) s));
        try contradiction.
      * destruct Hout as (found & -> & Hall). exists (messageSet :: found).
        split; [rewrite <- app_assoc; reflexivity | constructor; assumption].
      * destruct Hout as (before & fi' & after & found & Hsplit & Hall & Hbad).
        exists (fi :: before), fi', after, (messageSet :: found).
        split; [rewrite Hsplit; reflexivity|]. split; [constructor; assumption | exact Hbad].
  - rewrite (bool_decide_eq_true_2 (Go.Ext (fi_Name fi) <> ".pubsub"%string)) by exact Hext.
    rewrite (bool_decide_eq_false_2 _ Hext). apply IH.
Qed.

(** One turn of the outer loop of discovery. *)
Lemma loadTopics_cons (dir : string) (fileInfo : FileInfo) (rest : list FileInfo)
    (s : State) :
  loadTopics dir (fileInfo :: rest) s =
    if fi_IsDir fileInfo then
      match ioutil_ReadDir (world s) (Go.Join [dir; fi_Name fileInfo]) with
      | inl e => (s, Err e)
      | inr listing =>
          match snd (loadMessageSets dir (fi_Name fileInfo) listing [] s) with
          | Ok sets =>
              match last (MessageSetSort sets) with
              | None => (s, Panic "index out of range")
              | Some current =>
                  let flags := [O_WRONLY; O_APPEND] in
                  match os_OpenFile (world s) (path current) flags perm0770 with
                  | (w, inl e) =>
                      ({| world := w; topics := topics s;
                          trace := trace s ++ [EvOpenFile (path current) flags] |}, Err e)
                  | (w, inr topicFile) =>
                      loadTopics dir rest
                        {| world := w;
                           topics := <[fi_Name fileInfo :=
                                         {| name := fi_Name fileInfo;
                                            messageSets := MessageSetSort sets;
                                            writer := bufio_NewWriter topicFile |}]>
                                       (topics s);
                           trace := trace s ++ [EvOpenFile (path current) flags] |}
                  end
              end
          | Err e => (s, Err e)
          | Panic msg => (s, Panic msg)
          | Cutoff => (s, Cutoff)
          end
      end
    else loadTopics dir rest s.
Proof.
  cbn [loadTopics]. destruct (fi_IsDir fileInfo); [|reflexivity].
  unfold bind at 1, peek.
  destruct (ioutil_ReadDir _ _) as [e|listing]; [reflexivity|].
  unfold bind at 1.
  destruct (loadMessageSets_outcome dir (fi_Name fileInfo) listing [] s) as [Hstate _].
  destruct (loadMessageSets dir (fi_Name fileInfo) listing [] s) as [s0 [sets| | |]];
    cbn [fst snd] in *; subst s0; try reflexivity.
  replace (len sets <? 0) with false by (symmetry; apply Z.ltb_ge; unfold len; lia).
  unfold bind at 1. rewrite index_last.
  destruct (last (MessageSetSort sets)) as [current|]; [|reflexivity].
  unfold bind at 1, call.
  destruct (os_OpenFile _ _ _ _) as [w [e|topicFile]]; [reflexivity|].
  unfold bind at 1, storeTopic. reflexivity.
Qed.

Lemma loadTopics_grows (dir : string) (files : list FileInfo) (s : State) :
  grows discoveryEvent s (fst (loadTopics dir files s)).
Proof.
  revert s. induction files as [|fileInfo rest IH]; intros s; [apply grows_refl|].
  rewrite loadTopics_cons. destruct (fi_IsDir fileInfo); [|apply IH].
  destruct (ioutil_ReadDir _ _) as [e|listing]; [apply grows_refl|].
  destruct (snd (loadMessageSets _ _ _ _ _)) as [sets| | |]; try apply grows_refl.
  destruct (last (MessageSetSort sets)) as [current|]; [|apply grows_refl].
  cbv zeta.
  assert (Hstep : forall w, grows discoveryEvent s
            {| world := w; topics := topics s;
               trace := trace s ++ [EvOpenFile (path current) [O_WRONLY; O_APPEND]] |}).
  { intros w. eexists [_]. split; [reflexivity|]. constructor; [reflexivity|constructor]. }
  destruct (os_OpenFile _ _ _ _) as [w [e|topicFile]]; [apply Hstep|].
  eapply grows_trans; [|apply IH].
  eexists [_]. split; [reflexivity|]. constructor; [reflexivity|constructor].
Qed.

(** [NewServer], case by case. *)
Lemma NewServer_cases (w : World) (dir : string) :
  NewServer w dir =
    let s := {| world := w; topics := ∅; trace := [] |} in
    match os_Stat w dir with
    | inl e => (s, Err e)
    | inr _ =>
        match ioutil_ReadDir w dir with
        | inl e => (s, Err e)
        | inr files => loadTopics dir files s
        end
    end.
Proof.
  unfold NewServer, init, bind at 1, peek. cbn [world].
  destruct (os_Stat w dir) as [e|info]; [reflexivity|].
  unfold bind at 1, ret. unfold bind at 1. cbn [world].
  destruct (ioutil_ReadDir w dir) as [e|files]; reflexivity.
Qed.

Lemma init_grows (dir : string) (s : State) :
  grows discoveryEvent s (fst (init dir s)).
Proof.
  unfold init, bind at 1, peek.
  destruct (os_Stat _ _) as [e|info].
  - unfold bind, raise. apply grows_refl.
  - unfold bind at 1, ret. unfold bind at 1.
    destruct (ioutil_ReadDir _ _) as [e|files]; [apply grows_refl | apply loadTopics_grows].
Qed.

(** X13. Besides stat'ing and listing directories and building message sets,
    the only call startup discovery makes is OpenFile with the flags
    write-only and append, on existing segment files: it never creates a
    directory or a file, and it neither writes nor flushes. *)
Theorem NewServer_only_opens_for_append (w : World) (dir : string) :
  Forall discoveryEvent (trace (fst (NewServer w dir))).
Proof.
  unfold NewServer.
  destruct (init_grows dir {| world := w; topics := ∅; trace := [] |})
    as (added & Htrace & Hadded).
  rewrite Htrace. exact Hadded.
Qed.

Lemma last_nonempty {A : Type} (l : list A) (a : A) : last l = Some a -> l <> [].
Proof. intros Hlast ->. discriminate Hlast. Qed.

Lemma loadTopics_wellFormed (dir : string) (files : list FileInfo) (s : State) :
  wellFormed (topics s) -> wellFormed (topics (fst (loadTopics dir files s))).
Proof.
  revert s. induction files as [|fileInfo rest IH]; intros s Hwf; [exact Hwf|].
  rewrite loadTopics_cons. destruct (fi_IsDir fileInfo); [|apply IH, Hwf].
  destruct (ioutil_ReadDir _ _) as [e|listing]; [exact Hwf|].
  destruct (snd (loadMessageSets _ _ _ _ _)) as [sets| | |]; try exact Hwf.
  destruct (last (MessageSetSort sets)) as [current|] eqn:Hlast; [|exact Hwf].
  cbv zeta. destruct (os_OpenFile _ _ _ _) as [w [e|topicFile]]; [exact Hwf|].
  apply IH. cbn [topics].
  apply (wellFormed_insert (topics s)
           {| name := fi_Name fileInfo; messageSets := MessageSetSort sets;
              writer := bufio_NewWriter topicFile |} Hwf).
  cbn [messageSets]. exact (last_nonempty _ _ Hlast).
Qed.

(** X14. Whatever NewServer finds on disk and however it ends, every topic it
    has registered is filed under its own name and has at least one
    segment. *)
Theorem NewServer_registry_well_formed (w : World) (dir : string) :
  wellFormed (topics (fst (NewServer w dir))).
Proof.
  assert (Hempty : wellFormed (topics {| world := w; topics := ∅; trace := [] |})).
  { intros k t Hlook. cbn in Hlook. rewrite lookup_empty in Hlook. discriminate Hlook. }
  rewrite NewServer_cases. cbv zeta.
  destruct (os_Stat _ _) as [e|info]; [exact Hempty|].
  destruct (ioutil_ReadDir _ _) as [e|files]; [exact Hempty|].
  apply loadTopics_wellFormed, Hempty.
Qed.

Lemma loadTopics_registers (dir : string) (files : list FileInfo) (s : State) :
  snd (loadTopics dir files s) = Ok tt ->
  dom (topics (fst (loadTopics dir files s)))
  = dom (topics s) ∪ list_to_set (directories files).
Proof.
  revert s. induction files as [|fileInfo rest IH]; intros s Hok.
  { cbn. unfold directories. cbn. set_solver. }
  rewrite loadTopics_cons in Hok |- *. unfold directories in *. cbn [List.filter].
  destruct (fi_IsDir fileInfo); [|apply IH, Hok].
  destruct (ioutil_ReadDir _ _) as [e|listing]; [discriminate Hok|].
  destruct (snd (loadMessageSets _ _ _ _ _)) as [sets| | |]; try discriminate Hok.
  destruct (last (MessageSetSort sets)) as [current|]; [|discriminate Hok].
  cbv zeta in Hok |- *. destruct (os_OpenFile _ _ _ _) as [w [e|topicFile]];
    [discriminate Hok|].
  rewrite (IH _ Hok). cbn [topics List.map list_to_set]. rewrite dom_insert_L.
  set_solver.
Qed.

(** X15. When NewServer returns normally, the data directory could be
    stat'ed and listed, and the registry holds exactly the names of the
    listing's subdirectories: every topic directory is registered, plain
    files are ignored. *)
Theorem NewServer_registers_every_directory (w : World) (dir : string) :
  snd (NewServer w dir) = Ok tt ->
  exists info files,
    os_Stat w dir = inr info
    /\ ioutil_ReadDir w dir = inr files
    /\ dom (topics (fst (NewServer w dir))) = list_to_set (directories files).
Proof.
  rewrite NewServer_cases. cbv zeta.
  destruct (os_Stat w dir) as [e|info]; [discriminate|].
  destruct (ioutil_ReadDir w dir) as [e|files]; [discriminate|].
  intros Hok. exists info, files. split; [reflexivity|]. split; [reflexivity|].
  rewrite (loadTopics_registers dir files _ Hok). cbn [topics]. set_solver.
Qed.

Lemma loadTopics_panics (dir : string) (files : list FileInfo) (s : State)
    (msg : string) :
  snd (loadTopics dir files s) = Panic msg ->
  exists before fileInfo after listing,
    files = before ++ fileInfo :: after /\ fi_IsDir fileInfo = true
    /\ snd (loadTopics dir before s) = Ok tt
    /\ fst (loadTopics dir files s) = fst (loadTopics dir before s)
    /\ ioutil_ReadDir (world (fst (loadTopics dir before s)))
         (Go.Join [dir; fi_Name fileInfo]) = inr listing
    /\ pubsubFiles listing = [].
Proof.
  revert s. induction files as [|fileInfo rest IH]; intros s Hpanic; [discriminate Hpanic|].
  assert (Hrest : forall s',
            (forall l, loadTopics dir (fileInfo :: l) s = loadTopics dir l s') ->
            snd (loadTopics dir rest s') = Panic msg ->
            exists before fi after listing,
              fileInfo :: rest = before ++ fi :: after /\ fi_IsDir fi = true
              /\ snd (loadTopics dir before s) = Ok tt
              /\ fst (loadTopics dir (fileInfo :: rest) s) = fst (loadTopics dir before s)
              /\ ioutil_ReadDir (world (fst (loadTopics dir before s)))
                   (Go.Join [dir; fi_Name fi]) = inr listing
              /\ pubsubFiles listing = []).
  { intros s' Heq Hp.
    destruct (IH s' Hp) as (before & fi & after & listing & Hfiles & Hd & Hok & Hst
                            & Hlist & Hnone).
    exists (fileInfo :: before), fi, after, listing.
    rewrite !Heq. split; [rewrite Hfiles; reflexivity|].
    split; [exact Hd|]. split; [exact Hok|]. split; [exact Hst|].
    split; [exact Hlist | exact Hnone]. }
  rewrite loadTopics_cons in Hpanic.
  destruct (fi_IsDir fileInfo) eqn:Hdir.
  2:{ apply (Hrest s); [|exact Hpanic].
      intros l. rewrite loadTopics_cons, Hdir. reflexivity. }
  destruct (ioutil_ReadDir (world s) (Go.Join [dir; fi_Name fileInfo]))
    as [e|listing] eqn:Hlist; [discriminate Hpanic|].
  destruct (loadMessageSets_outcome dir (fi_Name fileInfo) listing [] s) as [_ Hout].
  destruct (snd (loadMessageSets dir (fi_Name fileInfo) listing [] s))
    as [sets| | |] eqn:Hsets; try discriminate Hpanic; try contradiction.
  destruct (last (MessageSetSort sets)) as [current|] eqn:Hlast.
  - cbv zeta in Hpanic.
    destruct (os_OpenFile (world s) (path current) [O_WRONLY; O_APPEND] perm0770)
      as [w [e|topicFile]] eqn:Hopen; [discriminate Hpanic|].
    eapply Hrest; [|exact Hpanic].
    intros l. rewrite loadTopics_cons, Hdir, Hlist, Hsets, Hlast. cbv zeta.
    rewrite Hopen. reflexivity.
  - exists [], fileInfo, rest, listing.
    split; [reflexivity|]. split; [exact Hdir|]. split; [reflexivity|].
    split; [rewrite loadTopics_cons, Hdir, Hlist, Hsets, Hlast; reflexivity|].
    split; [exact Hlist|].
    apply last_None in Hlast.
    assert (Hnil : sets = []).
    { apply length_zero_iff_nil. rewrite <- MessageSetSort_length, Hlast. reflexivity. }
    destruct Hout as (found & Hfound & Hall). rewrite Hnil in Hfound.
    cbn in Hfound. subst found. inversion Hall. reflexivity.
Qed.

(** X16. NewServer panics only over a topic directory without any [.pubsub]
    entry: whenever it panics, the entries of the data directory before
    some subdirectory were loaded without error, startup stopped in the
    state it had reached then, and in the world of that state the
    subdirectory was listed and the listing held no segment file. *)
Theorem NewServer_panics_only_without_segments (w : World) (dir : string)
    (msg : string) :
  snd (NewServer w dir) = Panic msg ->
  exists files before fileInfo after listing,
    ioutil_ReadDir w dir = inr files
    /\ files = before ++ fileInfo :: after /\ fi_IsDir fileInfo = true
    /\ let reached := loadTopics dir before {| world := w; topics := ∅; trace := [] |} in
       snd reached = Ok tt
       /\ fst (NewServer w dir) = fst reached
       /\ ioutil_ReadDir (world (fst reached)) (Go.Join [dir; fi_Name fileInfo])
          = inr listing
       /\ pubsubFiles listing = [].
Proof.
  rewrite NewServer_cases. cbv zeta.
  destruct (os_Stat w dir) as [e|info]; [discriminate|].
  destruct (ioutil_ReadDir w dir) as [e|files]; [discriminate|].
  intros Hpanic. destruct (loadTopics_panics dir files _ msg Hpanic)
    as (before & fileInfo & after & listing & Hrest).
  exists files, before, fileInfo, after, listing. split; [reflexivity | exact Hrest].
Qed.

(** X17. A segment file that [NewMessageSet] rejects is fatal to startup: when
    the listing of a topic directory has a [.pubsub] entry that
    [NewMessageSet] refuses, the discovery of that topic returns the error
    of the first such entry and the state is as before. *)
Theorem loadMessageSets_first_error (dir topicName : string)
    (before after : list FileInfo) (bad : FileInfo) (found : list MessageSet)
    (s : State) (e : error) :
  Forall2 (fun fi ms =>
             NewMessageSet (world s) (Go.Join [dir; topicName; fi_Name fi]) = inr ms)
          (pubsubFiles before) found ->
  Go.Ext (fi_Name bad) = ".pubsub"%string ->
  NewMessageSet (world s) (Go.Join [dir; topicName; fi_Name bad]) = inl e ->
  loadMessageSets dir topicName (before ++ bad :: after) [] s = (s, Err e).
Proof.
  intros Hgood Hext Hbad.
  assert (Hgen : forall acc,
            loadMessageSets dir topicName (before ++ bad :: after) acc s = (s, Err e)).
  { revert found Hgood. induction before as [|fi before IH]; intros found Hgood acc.
    - cbn [app loadMessageSets].
      rewrite (bool_decide_eq_false_2 (Go.Ext (fi_Name bad) <> ".pubsub"%string)) by tauto.
      unfold bind, peek. rewrite Hbad. reflexivity.
    - cbn [app loadMessageSets]. cbn [pubsubFiles List.filter] in Hgood.
      destruct (decide (Go.Ext (fi_Name fi) = ".pubsub"%string)) as [Hfi|Hfi].
      + rewrite (bool_decide_eq_false_2 (Go.Ext (fi_Name fi) <> ".pubsub"%string)) by tauto.
        rewrite (bool_decide_eq_true_2 _ Hfi) in Hgood.
        inversion Hgood as [|? ms ? found' Hnew Hrest]; subst.
        unfold bind at 1, peek. rewrite Hnew. apply (IH found' Hrest).
      + rewrite (bool_decide_eq_true_2 (Go.Ext (fi_Name fi) <> ".pubsub"%string))
          by exact Hfi.
        rewrite (bool_decide_eq_false_2 _ Hfi) in Hgood. apply (IH found Hgood). }
  apply Hgen.
Qed.

(** X18. The inner loop of discovery builds one MessageSet per [.pubsub] entry
    of the listing, in listing order, and skips every other entry. *)
Theorem loadMessageSets_one_per_pubsub_file (dir topicName : string)
    (files : list FileInfo) (s : State) (sets : list MessageSet) :
  snd (loadMessageSets dir topicName files [] s) = Ok sets ->
  Forall2 (fun fi ms =>
             NewMessageSet (world s) (Go.Join [dir; topicName; fi_Name fi]) = inr ms)
          (pubsubFiles files) sets.
Proof.
  intros Hok. destruct (loadMessageSets_outcome dir topicName files [] s) as [_ Hout].
  rewrite Hok in Hout. destruct Hout as (found & -> & Hall). exact Hall.
Qed.

End Discovery.

Section Serving.
Context `{R : Repo}.

(** X19. On a well-formed registry (as NewServer and PublishMulti leave it) a
    subscription to a registered topic never ends in the
    no-message-sets error: it always gets as far as opening one of the
    topic's segments, and that is the only file it opens. *)
Theorem Subscribe_well_formed_opens_a_segment (fuel : nat)
    (req : SubscribeRequest) (s : State) (topic : Topic) :
  wellFormed (topics s) ->
  topics s !! sub_Topic req = Some topic ->
  exists chosen,
    In chosen (messageSets topic)
    /\ opened (trace (fst (Subscribe fuel req s))) = opened (trace s) ++ [path chosen].
Proof.
  intros Hwf Hfound. destruct (Hwf _ _ Hfound) as [_ Hne].
  destruct (messageSets topic) as [|first rest] eqn:Hsets; [congruence|].
  exists (locate (first :: rest) (sub_Offset req) first). split.
  - apply locate_chooses_a_segment_aux.
  - rewrite <- (startReader_opened req s topic first rest Hfound Hsets).
    unfold Subscribe, bind.
    destruct (startReader req s) as [s' [started| | |]]; try reflexivity.
    cbn [fst]. apply deliver_opened.
Qed.

End Serving.

(* ===================================================================== *)
(** ** Runs in the in-memory environment *)
(* ===================================================================== *)

#[local] Existing Instances Mem.sys Mem.repo.
Import Scenario.

(** C1, on the code. Publishing the message with value "a" to a new topic
    succeeds and writes the frame of its 3-byte payload with a checksum
    field of four zero bytes, although the CRC-32 of the payload is
    3183743739; the specification's Decode rejects the stored frame. *)
Theorem PublishMulti_writes_zero_checksum :
  let run := PublishMulti "data" {| pub_Topic := "orders"; pub_Messages := [msgA] |}
               (Mem.start emptyDisk ∅) in
  snd run = Ok Build_PublishMultiReply
  /\ written (trace (fst run)) = [[8; 0; 0; 0]; [0]; [0; 0; 0; 0]; [90; 1; 97]]
  /\ Go.ChecksumIEEE [90; 1; 97] = 3183743739
  /\ Go.PutUint32 (Go.ChecksumIEEE [90; 1; 97]) = [251; 18; 196; 189]
  /\ Frame.Decode (Mem.content (world (fst run)) "data/orders/000000000000.pubsub")
     = Frame.Corrupt.
Proof. vm_compute. repeat split; reflexivity. Qed.

(** C2, on the code. With one segment that begins at offset 5 and holds two
    messages, a subscription from offset 3 computes the skip bound
    [3 - 5] in unsigned 64-bit arithmetic, 18446744073709551614: the skip
    loop reads and drops both messages, the third read finds no frame, and
    Subscribe returns that read's error having sent nothing. *)
Theorem Subscribe_skip_bound_wraps :
  let req := {| sub_Topic := "t"; sub_Offset := 3 |} in
  let s := Mem.start lateDisk (serving lateSets) in
  Go.uint64 (3 - 5) = 18446744073709551614
  /\ exists s',
       startReader req s = (s', Err Mem.ErrCanceled)
       /\ reads (trace s') = 3%nat
       /\ Subscribe 5 req s = (s', Err Mem.ErrCanceled)
       /\ sent (trace s') = [].
Proof.
  intros req s. split; [reflexivity|].
  pose (r1 := {| Mem.rd_file := "data/t/000000000005.pubsub"; Mem.rd_pos := 26 |}
              : @Reader Mem.sys Mem.repo).
  exists (fst (readMessage r1 (fst (skipMessages 2 0 lateReader lateOpened)))).
  assert (Hstart : startReader req s
                   = (fst (readMessage r1 (fst (skipMessages 2 0 lateReader lateOpened))),
                      Err Mem.ErrCanceled)).
  { rewrite (@startReader_skips Mem.sys Mem.repo req s (topicOf lateSets)
               (seg "000000000005.pubsub" 5) [] lateDisk
               "data/t/000000000005.pubsub"%string lateDisk tt
               eq_refl eq_refl eq_refl eq_refl).
    change (skipMessages (Z.to_nat 18446744073709551614) 0 lateReader lateOpened
            = (fst (readMessage r1 (fst (skipMessages 2 0 lateReader lateOpened))),
               Err Mem.ErrCanceled)).
    apply (skipMessages_stops 2 _ 0 lateReader lateOpened 2 r1 r1).
    - vm_compute. reflexivity.
    - vm_compute. reflexivity.
    - lia. }
  split; [exact Hstart|]. split; [vm_compute; reflexivity|]. split.
  - unfold Subscribe, bind. rewrite Hstart. reflexivity.
  - vm_compute. reflexivity.
Qed.

(** C4 fails as stated. With two segments of one message each, a
    subscription from offset 0 sends the first segment's message, finds no
    further frame in that file and ends there: the second segment is never
    opened and its message is never sent. *)
Lemma Subscribe_stays_in_located_segment :
  let run := Subscribe 5 {| sub_Topic := "t"; sub_Offset := 0 |}
               (Mem.start twoDisk (serving twoSets)) in
  snd run = Err Mem.ErrCanceled
  /\ sent (trace (fst run)) = [{| Messages := [msgA] |}]
  /\ opened (trace (fst run)) = ["data/t/000000000000.pubsub"%string]
  /\ ~ In (EvSend {| Messages := [msgB] |}) (trace (fst run)).
Proof.
  vm_compute. repeat split; try reflexivity.
  intros Hin. repeat (destruct Hin as [Hin|Hin]; [discriminate Hin|]). exact Hin.
Qed.

(** C8, on the code. A data directory whose topic subdirectory holds no
    [.pubsub] file makes [NewServer] panic: the guard [len < 0] never
    holds, and the last element of the empty segment list is indexed. *)
Theorem NewServer_panics_on_topic_without_segments :
  snd (NewServer bareTopicDisk "data") = Panic "index out of range".
Proof. vm_compute. reflexivity. Qed.

(** *** The in-memory writer keeps its error *)

Lemma Mem_sticky : sticky.
Proof.
  intros w t p w' e Hfail. change (Mem.topicWrite w t p = (w', Some e)) in Hfail.
  unfold Mem.topicWrite in Hfail.
  destruct (Mem.writeScript w) as [|[e0|] script] eqn:Hscript; try discriminate Hfail.
  injection Hfail as <- <-. split.
  - intros p'. change (Mem.topicWrite w t p' = (w, Some e0)).
    unfold Mem.topicWrite. rewrite Hscript. reflexivity.
  - change (Mem.topicFlush w t = (w, Some e0)).
    unfold Mem.topicFlush. rewrite Hscript. reflexivity.
Qed.

(** With no failure scripted, the framing loop writes a message through. *)
Lemma Mem_writeMessages_single (topic : Topic) (crc : Go.digest) (m : Message)
    (w : Mem.MemWorld) (ts : gmap string Topic) (tr : list Event) :
  Mem.writeScript w = [] ->
  snd (writeMessages topic crc [m] {| world := w; topics := ts; trace := tr |}) = Ok tt.
Proof.
  intros Hscript. cbn [writeMessages].
  change (proto_Marshal m) with (@inr error bytes (Proto.Marshal m)). cbv iota beta zeta.
  generalize (Proto.Marshal m). intros encoded.
  unfold bind, write, call, check, ret.
  change (@Topic_Write Mem.sys Mem.repo) with Mem.topicWrite.
  unfold Mem.topicWrite. cbn [world]. rewrite Hscript.
  cbv beta iota zeta. cbn [world Mem.writeScript trace topics].
  cbv beta iota zeta. cbn [world Mem.writeScript trace topics].
  cbv beta iota zeta. cbn [world Mem.writeScript trace topics].
  destruct encoded as [|b encoded]; cbn [io_Copy]; [reflexivity|].
  unfold write, call, ret.
  change (@Topic_Write Mem.sys Mem.repo) with Mem.topicWrite.
  unfold Mem.topicWrite. cbn [world Mem.writeScript trace topics].
  reflexivity.
Qed.

(** *** The message that does not fit the length field *)

Lemma bigValue_length : Z.of_nat (length bigValue) = 2 ^ 32 - 11.
Proof. unfold bigValue. rewrite repeat_length, Z2Nat.id; lia. Qed.

Lemma bigValue_cons : bigValue = 0 :: repeat 0 (Z.to_nat (2 ^ 32 - 12)).
Proof.
  unfold bigValue.
  replace (Z.to_nat (2 ^ 32 - 11)) with (S (Z.to_nat (2 ^ 32 - 12))) by lia.
  reflexivity.
Qed.

Lemma Marshal_value_only (b : Z) (tail : bytes) :
  Proto.Marshal {| offset := 0; key := []; value := b :: tail |}
  = Proto.tag 11 2 ++ Proto.EncodeVarint (Z.of_nat (length (b :: tail))) ++ b :: tail.
Proof. reflexivity. Qed.

Lemma bigMessage_length : Z.of_nat (length (Proto.Marshal bigMessage)) + 5 = 2 ^ 32.
Proof.
  unfold bigMessage. rewrite bigValue_cons, Marshal_value_only, <- bigValue_cons.
  rewrite bigValue_length.
  assert (Hvarint : length (Proto.EncodeVarint (2 ^ 32 - 11)) = 5%nat)
    by (vm_compute; reflexivity).
  assert (Htag : length (Proto.tag 11 2) = 1%nat) by (vm_compute; reflexivity).
  rewrite !length_app, Hvarint, Htag, !Nat2Z.inj_add, bigValue_length. lia.
Qed.

(** C5 fails as stated. The message whose value is 2^32 - 11 zero bytes
    encodes to a payload of L = 2^32 - 5 bytes.  The framing loop writes
    its frame through, and the length field of that frame is 00 00 00 00:
    it reads 0, whereas L + 5 is 2^32. *)
Lemma writeMessages_length_field_wraps :
  let encoded := Proto.Marshal bigMessage in
  let run := writeMessages (topicOf twoSets) Go.NewIEEE [bigMessage]
               (Mem.start twoDisk (serving twoSets)) in
  proto_Marshal bigMessage = inr encoded
  /\ Z.of_nat (length encoded) + 5 = 2 ^ 32
  /\ snd run = Ok tt
  /\ concat (written (trace (fst run))) = [0; 0; 0; 0] ++ [0; 0; 0; 0; 0] ++ encoded
  /\ Go.Uint32 (firstn 4 (concat (written (trace (fst run)))))
     <> Z.of_nat (length encoded) + 5.
Proof.
  cbv zeta.
  assert (Hok : snd (writeMessages (topicOf twoSets) Go.NewIEEE [bigMessage]
                       (Mem.start twoDisk (serving twoSets))) = Ok tt)
    by (apply Mem_writeMessages_single; reflexivity).
  assert (Hbytes : concat (written (trace (fst (writeMessages (topicOf twoSets) Go.NewIEEE
                                                  [bigMessage]
                                                  (Mem.start twoDisk (serving twoSets))))))
                   = [0; 0; 0; 0] ++ [0; 0; 0; 0; 0] ++ Proto.Marshal bigMessage).
  { pose proof (writeMessages_outcome (topicOf twoSets) Go.NewIEEE [bigMessage]
                  (Mem.start twoDisk (serving twoSets))) as Hout.
    cbv zeta in Hout. rewrite Hok in Hout. destruct Hout as (encs & Hencs & Hout).
    rewrite Hout. inversion Hencs as [|m enc l encs' Henc Hrest]; subst.
    inversion Hrest; subst.
    change (@inr error bytes (Proto.Marshal bigMessage) = inr enc) in Henc.
    injection Henc as <-.
    cbn [map concat Mem.start trace written omap app].
    rewrite app_nil_r, emitted_bytes, bigMessage_length.
    reflexivity. }
  split; [reflexivity|]. split; [exact bigMessage_length|]. split; [exact Hok|].
  split; [exact Hbytes|].
  rewrite Hbytes, bigMessage_length. cbn [app firstn]. vm_compute. discriminate.
Qed.

(** *** What a subscription delivers from the files of the in-memory disk *)

(** A whole frame ends within the data, and the rest follows it. *)
Lemma Decode_frame (data : bytes) (marker checksum : Z) (payload rest : bytes) :
  Frame.Decode data = Frame.Frame marker checksum payload rest ->
  exists k, (0 < k <= length data)%nat /\ rest = skipn k data.
Proof.
  unfold Frame.Decode.
  destruct (Z.ltb_spec (Z.of_nat (length data)) 4) as [|Hfour]; [discriminate|].
  set (n := Go.Uint32 (firstn 4 data)).
  destruct (Z.ltb_spec (Z.of_nat (length (skipn 4 data))) n) as [|Hbody]; [discriminate|].
  destruct (Z.ltb_spec n 5) as [|Hfive]; [discriminate|].
  destruct (_ =? _); [|discriminate].
  intros [= _ _ _ <-]. exists (Z.to_nat n + 4)%nat.
  rewrite length_skipn in Hbody. split; [lia|].
  rewrite skipn_skipn. reflexivity.
Qed.

Lemma payloadsFuel_enough (f1 f2 : nat) (data : bytes) :
  (length data <= f1)%nat -> (length data <= f2)%nat ->
  payloadsFuel f1 data = payloadsFuel f2 data.
Proof.
  revert f2 data. induction f1 as [|f1 IH]; intros f2 data H1 H2.
  - destruct data; [|cbn in H1; lia]. destruct f2; reflexivity.
  - destruct f2 as [|f2].
    { destruct data; [reflexivity | cbn in H2; lia]. }
    cbn [payloadsFuel].
    destruct (Frame.Decode data) as [| |marker checksum payload rest] eqn:HD;
      try reflexivity.
    apply Decode_frame in HD as (k & Hk & ->). f_equal.
    apply IH; rewrite length_skipn; lia.
Qed.

Lemma segmentPayloads_frame (data : bytes) (marker checksum : Z) (payload rest : bytes) :
  Frame.Decode data = Frame.Frame marker checksum payload rest ->
  segmentPayloads data = payload :: segmentPayloads rest.
Proof.
  intros HD. unfold segmentPayloads.
  destruct (Decode_frame _ _ _ _ _ HD) as (k & Hk & Hrest).
  destruct (length data) as [|n] eqn:Hlen; [lia|].
  cbn [payloadsFuel]. rewrite HD. f_equal.
  apply payloadsFuel_enough; [|lia]. subst rest. rewrite length_skipn. lia.
Qed.

Lemma segmentPayloads_none (data : bytes) :
  (forall marker checksum payload rest,
     Frame.Decode data <> Frame.Frame marker checksum payload rest) ->
  segmentPayloads data = [].
Proof.
  intros Hnone. unfold segmentPayloads. destruct (length data); [reflexivity|].
  cbn [payloadsFuel].
  destruct (Frame.Decode data) as [| |marker checksum payload rest] eqn:HD;
    try reflexivity.
  destruct (Hnone marker checksum payload rest). reflexivity.
Qed.

(** One read: either an error, at a position with no whole frame ahead,
    or the payload of the frame ahead, with the reader moved past it. *)
Lemma readFrame_cases (w : Mem.MemWorld) (r : Mem.MemReader) :
  (exists e, Mem.readFrame w r = (w, r, inl e) /\ segmentPayloads (ahead w r) = [])
  \/ (exists payload r',
        Mem.readFrame w r = (w, r', inr payload)
        /\ segmentPayloads (ahead w r) = payload :: segmentPayloads (ahead w r')).
Proof.
  unfold Mem.readFrame, ahead, Mem.content.
  destruct (Mem.find (Mem.rd_file r) (Mem.fs w)) as [[|stored]|] eqn:Hfind.
  - left. exists Mem.EISDIR. split; [reflexivity|]. rewrite skipn_nil. reflexivity.
  - cbv zeta.
    destruct (Frame.Decode (skipn (Mem.rd_pos r) stored))
      as [| |marker checksum payload rest] eqn:HD.
    + left. exists Mem.ErrCanceled. split; [reflexivity|].
      apply segmentPayloads_none. intros; congruence.
    + left. exists Frame.CorruptFrame. split; [reflexivity|].
      apply segmentPayloads_none. intros; congruence.
    + right. eexists payload, _. split; [reflexivity|].
      rewrite (segmentPayloads_frame _ _ _ _ _ HD). f_equal. f_equal.
      cbn [Mem.rd_pos Mem.rd_file]. rewrite Hfind.
      destruct (Decode_frame _ _ _ _ _ HD) as (k & Hk & ->).
      rewrite !length_skipn in *. rewrite skipn_skipn. f_equal. lia.
  - cbv zeta. rewrite skipn_nil.
    left. exists Mem.ErrCanceled. split; [reflexivity|]. reflexivity.
Qed.

(** The skip loop passes over the first [n] payloads ahead, or fails
    where fewer are there; it sends nothing and leaves the disk alone. *)
Lemma Mem_skipMessages (n : nat) (i : Z) (r : Mem.MemReader) (s s' : State)
    (res : result (Z * Reader)) :
  skipMessages n i r s = (s', res) ->
  world s' = world s
  /\ sent (trace s') = sent (trace s)
  /\ match res with
     | Ok (_, r') =>
         segmentPayloads (ahead (world s) r') = skipn n (segmentPayloads (ahead (world s) r))
     | Err _ => skipn n (segmentPayloads (ahead (world s) r)) = []
     | _ => False
     end.
Proof.
  revert i r s s' res. induction n as [|n IH]; intros i r s s' res Hrun.
  - cbn in Hrun. injection Hrun as <- <-. auto.
  - cbn [skipMessages] in Hrun. unfold bind at 1, readMessage, call in Hrun.
    change (@ReadMessage Mem.sys Mem.repo (world s) r) with (Mem.readFrame (world s) r) in Hrun.
    destruct (readFrame_cases (world s) r)
      as [(e & Hread & Hnone) | (payload & r' & Hread & Hsome)]; rewrite Hread in Hrun.
    + injection Hrun as <- <-. cbn [world trace]. rewrite sent_app, app_nil_r.
      split; [reflexivity|]. split; [reflexivity|]. rewrite Hnone. reflexivity.
    + apply IH in Hrun as (Hworld & Hsent & Hres). cbn [world trace] in *.
      rewrite sent_app, app_nil_r in Hsent.
      split; [exact Hworld|]. split; [exact Hsent|]. rewrite Hsome. exact Hres.
Qed.

(** The delivery loop sends the payloads ahead, one response each. *)
Lemma Mem_deliver (fuel : nat) (r : Mem.MemReader) (s : State) :
  sent (trace (fst (deliver fuel r s)))
  = sent (trace s) ++ map respond (firstn fuel (segmentPayloads (ahead (world s) r))).
Proof.
  revert r s. induction fuel as [|fuel IH]; intros r s.
  - cbn. rewrite app_nil_r. reflexivity.
  - rewrite deliver_S.
    change (@ReadMessage Mem.sys Mem.repo (world s) r) with (Mem.readFrame (world s) r).
    destruct (readFrame_cases (world s) r)
      as [(e & Hread & Hnone) | (payload & r' & Hread & Hsome)]; rewrite Hread.
    + cbn [fst trace]. rewrite sent_app, Hnone. reflexivity.
    + cbv zeta. change (@srv_Send Mem.sys (world s) ?x) with (world s, @None error).
      cbv iota beta. rewrite IH. cbn [trace world]. rewrite sent_app, Hsome.
      cbn [firstn map]. rewrite <- app_assoc. reflexivity.
Qed.

(** C4, as the code has it, with the tailing reader of the specification.
    Whatever the disk holds and however many segments the topic has, a
    subscription opens one file, the located segment's, and the messages
    it delivers are payloads of that file and of no other: the payloads
    stored there, from the one the skip loop stops at, in order.  When
    the reader reaches the end of that segment nothing more is sent:
    delivery does not go on with the next segment. *)
Theorem Subscribe_delivers_located_segment_only (fuel : nat) (req : SubscribeRequest)
    (w : Mem.MemWorld) (ts : gmap string Topic) (tr : list Event) (topic : Topic)
    (first : MessageSet) (rest : list MessageSet) :
  ts !! sub_Topic req = Some topic ->
  messageSets topic = first :: rest ->
  let located := locate (first :: rest) (sub_Offset req) first in
  let skipped := Z.to_nat (Go.uint64 (sub_Offset req - offsetBegin located)) in
  let run := Subscribe fuel req {| world := w; topics := ts; trace := tr |} in
  opened (trace (fst run)) = opened tr ++ [path located]
  /\ sent (trace (fst run))
     = sent tr
       ++ map respond
            (firstn fuel (skipn skipped (segmentPayloads (Mem.content w (path located))))).
Proof.
  intros Hfound Hsets located skipped run.
  match goal with
  | run := Subscribe _ _ ?s0 |- _ => set (s := s0) in *
  end.
  split.
  { exact (Subscribe_opened fuel req s topic first rest Hfound Hsets). }
  subst run. unfold Subscribe, bind.
  pose proof (startReader_found req s topic first rest Hfound Hsets) as Hstart.
  cbv zeta in Hstart. fold located in Hstart. fold skipped in Hstart.
  change (@os_Open Mem.sys (world s) (path located))
    with (Mem.OpenFile w (path located) [O_RDONLY] 0) in Hstart.
  assert (Hopen : (Mem.OpenFile w (path located) [O_RDONLY] 0 = (w, inr (path located)))
                  \/ (exists e, Mem.OpenFile w (path located) [O_RDONLY] 0 = (w, inl e)
                                /\ Mem.content w (path located) = [])).
  { unfold Mem.OpenFile, Mem.content.
    destruct (Mem.find (path located) (Mem.fs w)) as [[|stored]|].
    - left. reflexivity.
    - left. reflexivity.
    - right. exists Mem.ENOENT. split; reflexivity. }
  destruct Hopen as [Hopen | (e & Hopen & Hempty)]; rewrite Hopen in Hstart.
  - change (@Topic_Listen Mem.sys Mem.repo w topic) with (w, tt) in Hstart. cbv iota beta in Hstart.
    change (@NewMessageSetReader Mem.sys Mem.repo (path located) tt)
      with {| Mem.rd_file := path located; Mem.rd_pos := 0 |} in Hstart.
    destruct (startReader req s) as [s1 started] eqn:Hrun.
    symmetry in Hstart. apply Mem_skipMessages in Hstart as (Hworld & Hsent & Hres).
    cbn [world trace] in Hworld, Hsent, Hres.
    rewrite !sent_app, !app_nil_r in Hsent.
    destruct started as [[i r']| | |]; try contradiction;
      change (ahead w {| Mem.rd_file := path located; Mem.rd_pos := 0 |})
        with (Mem.content w (path located)) in Hres.
    + rewrite Mem_deliver. cbn [snd]. rewrite Hworld, Hres, Hsent. reflexivity.
    + cbn [fst]. rewrite Hsent, Hres. destruct fuel; rewrite ?firstn_nil, ?app_nil_r;
        cbn; rewrite ?app_nil_r; reflexivity.
  - rewrite Hstart. cbn [fst trace]. rewrite sent_app, Hempty. cbn.
    unfold segmentPayloads. cbn. rewrite skipn_nil, firstn_nil, !app_nil_r. reflexivity.
Qed.

(** *** The theorems at concrete inputs *)

Lemma writeMessages_emits_frames_witness :
  let run := writeMessages (topicOf twoSets) Go.NewIEEE [msgA; msgC]
               (Mem.start twoDisk (serving twoSets)) in
  exists frames,
    concat (written (trace (fst run))) = concat (written []) ++ concat frames
    /\ Forall2 framed [msgA; msgC] frames.
Proof.
  apply (@writeMessages_emits_frames Mem.sys Mem.repo (topicOf twoSets) Go.NewIEEE
           [msgA; msgC] (Mem.start twoDisk (serving twoSets))).
  vm_compute. reflexivity.
Defined.

Lemma startReader_opens_located_witness :
  exists chosen,
    LocateSpec twoSets 1 = Some chosen
    /\ opened (trace (fst (startReader {| sub_Topic := "t"; sub_Offset := 1 |}
                             (Mem.start twoDisk (serving twoSets)))))
       = opened [] ++ [path chosen].
Proof.
  apply (@startReader_opens_located Mem.sys Mem.repo {| sub_Topic := "t"; sub_Offset := 1 |}
           (Mem.start twoDisk (serving twoSets)) (topicOf twoSets)).
  - reflexivity.
  - discriminate.
  - repeat constructor; cbn; lia.
Defined.

Lemma Subscribe_delivers_located_segment_only_witness :
  let run := Subscribe 5 {| sub_Topic := "t"; sub_Offset := 0 |}
               {| world := twoDisk; topics := serving twoSets; trace := [] |} in
  opened (trace (fst run))
  = opened [] ++ [path (locate twoSets 0 (seg "000000000000.pubsub" 0))]
  /\ sent (trace (fst run))
     = sent []
       ++ map respond
            (firstn 5
               (skipn (Z.to_nat (Go.uint64
                                   (0 - offsetBegin (locate twoSets 0
                                                       (seg "000000000000.pubsub" 0)))))
                  (segmentPayloads
                     (Mem.content twoDisk
                        (path (locate twoSets 0 (seg "000000000000.pubsub" 0))))))).
Proof.
  apply (Subscribe_delivers_located_segment_only 5 {| sub_Topic := "t"; sub_Offset := 0 |}
           twoDisk (serving twoSets) [] (topicOf twoSets)
           (seg "000000000000.pubsub" 0) [seg "000000000001.pubsub" 1]);
    reflexivity.
Defined.

Lemma PublishMulti_stops_at_first_failure_witness :
  let s := Mem.start flakyTwo (serving twoSets) in
  let req := {| pub_Topic := "t"; pub_Messages := [] ++ msgA :: [msgB] |} in
  world (fst (PublishMulti "data" req s)) = headerTaken
  /\ (snd (PublishMulti "data" req s) = Err diskFull
      \/ exists next later e',
           [msgB] = next :: later /\ proto_Marshal next = inl e'
           /\ snd (PublishMulti "data" req s) = Err e').
Proof.
  apply (@PublishMulti_stops_at_first_failure Mem.sys Mem.repo "data"
           {| pub_Topic := "t"; pub_Messages := [] ++ msgA :: [msgB] |}
           (Mem.start flakyTwo (serving twoSets)) (Mem.start flakyTwo (serving twoSets))
           (topicOf twoSets) [] [msgB] msgA headerTaken diskFull).
  - exact Mem_sticky.
  - reflexivity.
  - reflexivity.
  - reflexivity.
  - right. exists [90; 1; 97]. split; [reflexivity|]. cbv zeta.
    right. eexists. split; [reflexivity|].
    right. eexists. split; [reflexivity|].
    right. eexists. split; [reflexivity|].
    split; [discriminate | reflexivity].
Defined.

Lemma unknown_topic_witness :
  let s := Mem.start emptyDisk ∅ in
  let req := {| pub_Topic := "orders"; pub_Messages := [msgA] |} in
  let final := fst (PublishMulti "data" req s) in
  Subscribe 3 {| sub_Topic := "orders"; sub_Offset := 0 |} s
    = (s, Err (errNoSuchTopic "orders"))
  /\ PublishMulti "data" req s =
     PublishMulti "data" req
       {| world := createdDisk; topics := <["orders"%string := ordersTopic]> ∅;
          trace := [] ++ [EvMkdirAll "data/orders";
                          EvOpenFile "data/orders/000000000000.pubsub"
                            [O_RDWR; O_APPEND; O_CREATE]] |}
  /\ topics final !! "orders"%string = Some ordersTopic
  /\ (exists added,
        trace final = [] ++ [EvMkdirAll "data/orders";
                             EvOpenFile "data/orders/000000000000.pubsub"
                               [O_RDWR; O_APPEND; O_CREATE]] ++ added
        /\ Forall (appendEvent "orders") added)
  /\ (snd (PublishMulti "data" req s) = Ok Build_PublishMultiReply ->
      exists encs,
        marshalled [msgA] encs
        /\ concat (written (trace final))
           = concat (written [])
             ++ concat (map (fun encoded =>
                               Go.PutUint32 (Go.uint32 (Z.of_nat (length encoded) + 5))
                               ++ [0; 0; 0; 0; 0] ++ encoded) encs)
        /\ flushed (trace final) = flushed [] ++ ["orders"%string]).
Proof.
  apply (@unknown_topic_Subscribe_fails_PublishMulti_creates Mem.sys Mem.repo "data" "orders" 0 3 [msgA]
           (Mem.start emptyDisk ∅)
           (Mem.disk [("data"%string, Mem.Directory); ("data/orders"%string, Mem.Directory)])
           createdDisk "data/orders/000000000000.pubsub"%string);
    reflexivity.
Defined.

(** The batch of the two messages on the writer that fails at its fourth
    write, run: the payload write of the first message fails, the length
    field of the second is refused, and PublishMulti returns the writer's
    error without a flush. *)
Example failing_publish_run :
  let run := PublishMulti "data" {| pub_Topic := "t"; pub_Messages := [msgA; msgB] |}
               (Mem.start flakyTwo (serving twoSets)) in
  snd run = Err diskFull
  /\ written (trace (fst run))
     = [[8; 0; 0; 0]; [0]; [0; 0; 0; 0]; [90; 1; 97]; [10; 0; 0; 0]]
  /\ flushed (trace (fst run)) = []
  /\ Mem.pending (world (fst run)) !! "data/t/000000000001.pubsub"%string
     = Some [8; 0; 0; 0; 0; 0; 0; 0; 0].
Proof. vm_compute. repeat split; reflexivity. Qed.

(** The first publish of the message with value "a" to [orders], run: it
    succeeds, with these four writes and one flush. *)
Example first_publish_run :
  let run := PublishMulti "data" {| pub_Topic := "orders"; pub_Messages := [msgA] |}
               (Mem.start emptyDisk ∅) in
  snd run = Ok Build_PublishMultiReply
  /\ written (trace (fst run)) = [[8; 0; 0; 0]; [0]; [0; 0; 0; 0]; [90; 1; 97]]
  /\ flushed (trace (fst run)) = ["orders"%string].
Proof. vm_compute. repeat split; reflexivity. Qed.

Lemma deliver_ignores_unmarshal_error_witness :
  let s := Mem.start oddDisk (serving oddSets) in
  let message := {| offset := 0; key := []; value := [] |} in
  proto_Unmarshal oddPayload = (message, Some Proto.ErrUnexpectedEOF)
  /\ deliver 2 (oddReader 0) s =
     deliver 1 (oddReader 10)
       {| world := oddDisk; topics := serving oddSets;
          trace := [] ++ [EvRead; EvSend {| Messages := [message] |}] |}.
Proof.
  split; [reflexivity|].
  apply (@deliver_ignores_unmarshal_error Mem.sys Mem.repo 1
           (oddReader 0) (oddReader 10)
           (Mem.start oddDisk (serving oddSets)) oddDisk oddDisk oddPayload
           {| offset := 0; key := []; value := [] |} Proto.ErrUnexpectedEOF);
    reflexivity.
Defined.

Lemma PublishMulti_empty_batch_witness :
  let s := Mem.start emptyDisk ∅ in
  let run := PublishMulti "data" {| pub_Topic := "orders"; pub_Messages := [] |} s in
  (run = ({| world := createdDisk; topics := <["orders"%string := ordersTopic]> ∅;
             trace := [] ++ [EvMkdirAll "data/orders";
                             EvOpenFile "data/orders/000000000000.pubsub"
                               [O_RDWR; O_APPEND; O_CREATE];
                             EvFlush "orders"] |},
          Ok Build_PublishMultiReply)
   /\ forall other, other <> "orders"%string ->
        topics (fst run) !! other = topics s !! other)
  /\ Mem.content (world (fst run)) "data/orders/000000000000.pubsub" = [].
Proof.
  split.
  - apply (@PublishMulti_empty_batch_creates_topic Mem.sys Mem.repo "data" "orders"
             (Mem.start emptyDisk ∅)
             (Mem.disk [("data"%string, Mem.Directory);
                        ("data/orders"%string, Mem.Directory)])
             createdDisk createdDisk "data/orders/000000000000.pubsub"%string);
      reflexivity.
  - reflexivity.
Defined.

(** *** Checks of the library models against known values *)

Example crc32_check :
  Go.ChecksumIEEE [49; 50; 51; 52; 53; 54; 55; 56; 57] = 0xCBF43926.
Proof. vm_compute. reflexivity. Qed.

Example pad12_values :
  Go.pad12 0 = "000000000000"%string /\ Go.pad12 1234 = "000000001234"%string.
Proof. vm_compute. split; reflexivity. Qed.

Example path_values :
  Go.Join ["data"; "orders"; "000000000000.pubsub"]%string
  = "data/orders/000000000000.pubsub"%string
  /\ Go.Dir "data/orders/000000000000.pubsub" = "data/orders"%string
  /\ Go.Ext "data/orders/000000000000.pubsub" = ".pubsub"%string
  /\ Go.Join ["data"; ""; "x"]%string = "data/x"%string
  /\ Go.Clean "a/../../b//c/." = "../b/c"%string
  /\ Go.Clean "/../a" = "/a"%string
  /\ Go.Ext "a.b/c" = ""%string.
Proof. vm_compute. repeat split; reflexivity. Qed.

(** A frame of the specification's codec decodes to its payload, and a
    restart finds the topic a publish created. *)
Example frame_roundtrip :
  Frame.Decode (Frame.Encode [90; 1; 97]) = Frame.Frame 0 3183743739 [90; 1; 97] [].
Proof. vm_compute. reflexivity. Qed.

(** *** Further theorems at concrete inputs *)

Import Cases.

Lemma locate_stops_witness :
  locate ([seg "000000000000.pubsub" 0] ++ seg "000000000009.pubsub" 9
            :: [seg "000000000001.pubsub" 1]) 5 (seg "000000000000.pubsub" 0)
  = locate [seg "000000000000.pubsub" 0] 5 (seg "000000000000.pubsub" 0).
Proof.
  apply (locate_stops_at_first_later_segment [seg "000000000000.pubsub" 0]
           [seg "000000000001.pubsub" 1] (seg "000000000009.pubsub" 9)).
  cbn. lia.
Defined.

Lemma Subscribe_start_error_witness :
  let req := {| sub_Topic := "t"; sub_Offset := 0 |} in
  Subscribe 5 req missingFiles = (fst (startReader req missingFiles), Err Mem.ENOENT)
  /\ sent (trace (fst (Subscribe 5 req missingFiles))) = sent (trace missingFiles).
Proof.
  apply (@Subscribe_start_error_sends_nothing Mem.sys Mem.repo 5
           {| sub_Topic := "t"; sub_Offset := 0 |} missingFiles Mem.ENOENT).
  vm_compute. reflexivity.
Defined.

Lemma startReader_skips_to_offset_witness :
  let req := {| sub_Topic := "t"; sub_Offset := 6 |} in
  let begin := offsetBegin (locate lateSets 6 (seg "000000000005.pubsub" 5)) in
  0 <= begin <= 6
  /\ 1 = 6 - begin
  /\ reads (trace (fst (startReader req lateSegment)))
     = (reads (trace lateSegment) + Z.to_nat 1)%nat.
Proof.
  apply (@startReader_skips_to_offset Mem.sys Mem.repo
           {| sub_Topic := "t"; sub_Offset := 6 |} lateSegment (topicOf lateSets)
           (seg "000000000005.pubsub" 5) [] 1
           {| Mem.rd_file := "data/t/000000000005.pubsub"; Mem.rd_pos := 12 |}).
  - reflexivity.
  - reflexivity.
  - repeat constructor. cbn. lia.
  - cbn. lia.
  - vm_compute. reflexivity.
Defined.

Lemma writeMessages_writes_these_bytes_witness :
  exists encs,
    marshalled [msgA; msgC] encs
    /\ concat (written (trace (fst (writeMessages (topicOf twoSets) Go.NewIEEE
                                      [msgA; msgC] twoSegments))))
       = concat (written (trace twoSegments))
         ++ concat (map (fun encoded =>
                           Go.PutUint32 (Go.uint32 (Z.of_nat (length encoded) + 5))
                           ++ [0; 0; 0; 0; 0] ++ encoded) encs).
Proof.
  apply (@writeMessages_writes_these_bytes Mem.sys Mem.repo (topicOf twoSets)
           Go.NewIEEE [msgA; msgC] twoSegments).
  vm_compute. reflexivity.
Defined.

Lemma writeMessages_error_witness :
  let s := Mem.start stuckDisk (serving twoSets) in
  exists done failing rest encs partial,
    [msgA; msgB] = done ++ failing :: rest
    /\ marshalled done encs
    /\ concat (written (trace (fst (writeMessages (topicOf twoSets) Go.NewIEEE
                                      [msgA; msgB] s))))
       = concat (written (trace s)) ++ concat (map emitted encs) ++ partial
    /\ ((proto_Marshal failing = inl diskFull /\ partial = [])
        \/ exists encoded,
             proto_Marshal failing = inr encoded
             /\ partial `prefix_of` header encoded).
Proof.
  apply (@writeMessages_error_stops_the_batch Mem.sys Mem.repo (topicOf twoSets)
           Go.NewIEEE [msgA; msgB] (Mem.start stuckDisk (serving twoSets)) diskFull).
  vm_compute. reflexivity.
Defined.

Lemma PublishMulti_registered_witness :
  quiet (appendEvent "t") twoSegments
    (fst (PublishMulti "data" {| pub_Topic := "t"; pub_Messages := [msgA] |} twoSegments)).
Proof.
  apply (@PublishMulti_registered_only_appends Mem.sys Mem.repo "data"
           {| pub_Topic := "t"; pub_Messages := [msgA] |} twoSegments (topicOf twoSets)).
  reflexivity.
Defined.

Lemma PublishMulti_flushes_witness :
  let req := {| pub_Topic := "t"; pub_Messages := [msgA] |} in
  let loop := writeMessages (topicOf twoSets) Go.NewIEEE [msgA] twoSegments in
  flushed (trace (fst (PublishMulti "data" req twoSegments)))
  = flushed (trace twoSegments) ++ match snd loop with Ok _ => ["t"%string] | _ => [] end
  /\ forall e, snd loop = Err e -> PublishMulti "data" req twoSegments = (fst loop, Err e).
Proof.
  apply (@PublishMulti_flushes_after_full_batch Mem.sys Mem.repo "data"
           {| pub_Topic := "t"; pub_Messages := [msgA] |} twoSegments (topicOf twoSets)).
  reflexivity.
Defined.

Lemma PublishMulti_failed_creation_witness :
  let req := {| pub_Topic := "orders"; pub_Messages := [msgA] |} in
  let s := Mem.start blockedDisk ∅ in
  snd (PublishMulti "data" req s) = Err Mem.ENOTDIR
  /\ topics (fst (PublishMulti "data" req s)) = topics s
  /\ written (trace (fst (PublishMulti "data" req s))) = written (trace s).
Proof.
  apply (@PublishMulti_failed_creation_registers_nothing Mem.sys Mem.repo "data"
           {| pub_Topic := "orders"; pub_Messages := [msgA] |}
           (Mem.start blockedDisk ∅) Mem.ENOTDIR).
  - reflexivity.
  - reflexivity.
Defined.

Lemma PublishMulti_keeps_registry_witness :
  wellFormed (topics (fst (PublishMulti "data"
                             {| pub_Topic := "orders"; pub_Messages := [msgA] |}
                             (Mem.start emptyDisk ∅)))).
Proof.
  apply (@PublishMulti_keeps_registry_well_formed Mem.sys Mem.repo "data"
           {| pub_Topic := "orders"; pub_Messages := [msgA] |} (Mem.start emptyDisk ∅)).
  intros k t Hlook. cbn in Hlook. rewrite lookup_empty in Hlook. discriminate Hlook.
Defined.

Lemma NewServer_registers_witness :
  exists info files,
    os_Stat createdDisk "data" = inr info
    /\ ioutil_ReadDir createdDisk "data" = inr files
    /\ dom (topics (fst (NewServer createdDisk "data"))) = list_to_set (directories files).
Proof.
  apply (@NewServer_registers_every_directory Mem.sys Mem.repo createdDisk "data").
  vm_compute. reflexivity.
Defined.

Lemma NewServer_panics_only_witness :
  exists files before fileInfo after listing,
    ioutil_ReadDir bareTopicDisk "data" = inr files
    /\ files = before ++ fileInfo :: after /\ fi_IsDir fileInfo = true
    /\ let reached := loadTopics "data" before
                        {| world := bareTopicDisk; topics := ∅; trace := [] |} in
       snd reached = Ok tt
       /\ fst (NewServer bareTopicDisk "data") = fst reached
       /\ ioutil_ReadDir (world (fst reached)) (Go.Join ["data"%string; fi_Name fileInfo])
          = inr listing
       /\ pubsubFiles listing = [].
Proof.
  apply (@NewServer_panics_only_without_segments Mem.sys Mem.repo bareTopicDisk "data"
           "index out of range").
  vm_compute. reflexivity.
Defined.

Lemma loadMessageSets_first_error_witness :
  loadMessageSets "data" "t"
    ([entry "000000000000.pubsub"; entry "notes.txt"] ++ entry "abc.pubsub" :: [])
    [] twoSegments
  = (twoSegments, Err Mem.ErrSegmentName).
Proof.
  apply (@loadMessageSets_first_error Mem.sys Mem.repo "data" "t"
           [entry "000000000000.pubsub"; entry "notes.txt"] [] (entry "abc.pubsub")
           [seg "000000000000.pubsub" 0] twoSegments Mem.ErrSegmentName).
  - repeat constructor.
  - reflexivity.
  - reflexivity.
Defined.

Lemma loadMessageSets_one_per_pubsub_file_witness :
  Forall2 (fun fi ms =>
             NewMessageSet (world twoSegments) (Go.Join ["data"; "t"; fi_Name fi]%string)
             = inr ms)
          (pubsubFiles mixedListing)
          [seg "000000000000.pubsub" 0; seg "000000000007.pubsub" 7].
Proof.
  apply (@loadMessageSets_one_per_pubsub_file Mem.sys Mem.repo "data" "t"
           mixedListing twoSegments).
  vm_compute. reflexivity.
Defined.

Lemma Subscribe_well_formed_witness :
  exists chosen,
    In chosen twoSets
    /\ opened (trace (fst (Subscribe 5 {| sub_Topic := "t"; sub_Offset := 1 |}
                             twoSegments)))
       = opened (trace twoSegments) ++ [path chosen].
Proof.
  apply (@Subscribe_well_formed_opens_a_segment Mem.sys Mem.repo 5
           {| sub_Topic := "t"; sub_Offset := 1 |} twoSegments (topicOf twoSets)).
  - intros k t Hlook. unfold twoSegments, Mem.start, serving in Hlook.
    cbn [topics] in Hlook. apply lookup_singleton_Some in Hlook as [<- <-].
    split; [reflexivity | discriminate].
  - reflexivity.
Defined.
